(** * Pager (native and web) and the test mocker's StringIdGenerator

    A shallow embedding of three pieces of the client:

    - [Native]: the pager built on the platform's paging view.  Its refs
      ([lastOffset], [lastDirection], [scrollState], [pagerView]) and its
      [selectedPage] state are one record; every handler is a function from
      that record to the new record and the list of outgoing calls it made.
    - [Web]: the pointer-based pager, whose [scrollYs] array is a finite map
      from page index to a recorded scroll position.
    - [Mocker]: the [StringIdGenerator] class of the test mocker.

    JS numbers that carry a page index are [Z]; scroll offsets and pixel
    positions are IEEE binary64 values ([float]), compared with the
    primitive comparisons, so [===], [<], [<=] and [+] are those of the
    source. *)

From Stdlib Require Import ZArith String Ascii List Lia Bool.
From Corelib Require Import PrimFloat.
From stdpp Require Import base option list gmap strings.

Import ListNotations.

#[local] Open Scope Z_scope.

(** The optional call [f?.(x)]: the call is made when the prop is set. *)
Definition optional_call {E : Type} (supplied : bool) (e : E) : list E :=
  if supplied then [e] else [].

(* ===================================================================== *)
(** ** The native pager *)
(* ===================================================================== *)

Module Native.

(** The props that the handlers read.  A callback prop is [true] when the
    caller supplied it. *)
Record Props := mkProps {
  initialPage : option Z;
  onPageSelected : bool;
  onPageSelecting : bool;
  onPageScrollStateChanged : bool
}.

(** Outgoing calls: the three callback props and the command sent to the
    platform paging view through the [pagerView] ref. *)
Inductive Call :=
| PageSelected (index : Z)
| PageSelecting (index : Z)
| PageScrollStateChanged (scrollState : string)
| PagerViewSetPage (index : Z).

Record State := mkState {
  selectedPage : Z;          (* React.useState(0) *)
  lastOffset : float;        (* React.useRef(0) *)
  lastDirection : Z;         (* React.useRef(0) *)
  scrollState : string;      (* React.useRef('') *)
  pagerView : bool           (* pagerView.current is attached *)
}.

Definition setSelectedPage (p : Z) (s : State) : State :=
  mkState p (lastOffset s) (lastDirection s) (scrollState s) (pagerView s).
Definition set_lastOffset (o : float) (s : State) : State :=
  mkState (selectedPage s) o (lastDirection s) (scrollState s) (pagerView s).
Definition set_lastDirection (d : Z) (s : State) : State :=
  mkState (selectedPage s) (lastOffset s) d (scrollState s) (pagerView s).
Definition set_scrollState (p : string) (s : State) : State :=
  mkState (selectedPage s) (lastOffset s) (lastDirection s) p (pagerView s).

(** The hooks at the top of [PagerImpl], before and after the paging view
    is mounted.  [initialPage] is not among what they read. *)
Definition init (props : Props) (mounted : bool) : State :=
  mkState 0 0%float 0 EmptyString mounted.

(** [initialPage = 0] in the parameter list. *)
Definition initialPage_or_default (props : Props) : Z :=
  default 0 (initialPage props).

(** What the render hands to [renderTabBar]; [initialPage] only goes to
    the paging view. *)
Definition renderTabBar_selectedPage (props : Props) (s : State) : Z :=
  selectedPage s.

Section Handlers.
Variable props : Props.

(** [pagerView.current?.setPage(index)] *)
Definition pagerView_setPage (index : Z) (s : State) : list Call :=
  optional_call (pagerView s) (PagerViewSetPage index).

Definition setPage (index : Z) (s : State) : State * list Call :=
  (s, pagerView_setPage index s).

Definition onPageSelectedInner (position : Z) (s : State)
  : State * list Call :=
  (setSelectedPage position s,
   optional_call (onPageSelected props) (PageSelected position)).

Definition onPageScroll (position : Z) (offset : float) (s : State)
  : State * list Call :=
  if PrimFloat.eqb offset 0 then (s, [])
  else
    let '(s1, out) :=
      if String.eqb (scrollState s) "settling" then
        if (lastDirection s =? -1) && PrimFloat.ltb offset (lastOffset s)
        then
          (set_lastDirection 0 (setSelectedPage position s),
           optional_call (onPageSelecting props) (PageSelecting position))
        else if (lastDirection s =? 1)
                && PrimFloat.ltb (lastOffset s) offset
        then
          (set_lastDirection 0 (setSelectedPage (position + 1) s),
           optional_call (onPageSelecting props)
             (PageSelecting (position + 1)))
        else (s, [])
      else
        if PrimFloat.ltb offset (lastOffset s)
        then (set_lastDirection (-1) s, [])
        else if PrimFloat.ltb (lastOffset s) offset
        then (set_lastDirection 1 s, [])
        else (s, [])
    in
    (set_lastOffset offset s1, out).

Definition handlePageScrollStateChanged (pageScrollState : string)
  (s : State) : State * list Call :=
  (set_scrollState pageScrollState s,
   optional_call (onPageScrollStateChanged props)
     (PageScrollStateChanged pageScrollState)).

Definition onTabBarSelect (index : Z) (s : State) : State * list Call :=
  (s,
   pagerView_setPage index s
     ++ optional_call (onPageSelecting props) (PageSelecting index)).

(** Everything that can reach the component: the paging view's three
    events, a tap on the tab bar, and the imperative handle. *)
Inductive Event :=
| EvPageScroll (position : Z) (offset : float)
| EvPageScrollStateChanged (pageScrollState : string)
| EvPageSelected (position : Z)
| EvTabBarSelect (index : Z)
| EvSetPage (index : Z).

Definition step (e : Event) (s : State) : State * list Call :=
  match e with
  | EvPageScroll position offset => onPageScroll position offset s
  | EvPageScrollStateChanged p => handlePageScrollStateChanged p s
  | EvPageSelected position => onPageSelectedInner position s
  | EvTabBarSelect index => onTabBarSelect index s
  | EvSetPage index => setPage index s
  end.

(** Events are delivered one at a time, in order. *)
Fixpoint run (es : list Event) (s : State) : State * list Call :=
  match es with
  | [] => (s, [])
  | e :: es' =>
      let '(s1, out1) := step e s in
      let '(s2, out2) := run es' s1 in
      (s2, out1 ++ out2)
  end.

End Handlers.

Definition is_PageSelecting (c : Call) : bool :=
  match c with PageSelecting _ => true | _ => false end.

(** How many [onPageSelecting] calls a trace holds. *)
Definition count_PageSelecting (out : list Call) : nat :=
  length (List.filter is_PageSelecting out).

(** The events of one settle phase: anything but a tab-bar tap (which
    calls [onPageSelecting] itself) and a change of phase. *)
Definition within_settle (e : Event) : bool :=
  match e with
  | EvPageScroll _ _ => true
  | EvPageScrollStateChanged p => String.eqb p "settling"
  | EvPageSelected _ => true
  | EvTabBarSelect _ => false
  | EvSetPage _ => true
  end.

Definition is_zero_scroll (e : Event) : bool :=
  match e with
  | EvPageScroll _ o => PrimFloat.eqb o 0
  | _ => false
  end.

(** *** Reading a run: what came in and what went out *)

(** The positions of the paging view's page-selected events, in order. *)
Definition page_selected_events (es : list Event) : list Z :=
  flat_map (fun e => match e with EvPageSelected p => [p] | _ => [] end) es.

(** The phases of the paging view's scroll-state events, in order. *)
Definition scroll_state_events (es : list Event) : list string :=
  flat_map
    (fun e => match e with EvPageScrollStateChanged p => [p] | _ => [] end)
    es.

(** The indices of the taps on the tab bar, in order. *)
Definition tab_bar_selects (es : list Event) : list Z :=
  flat_map (fun e => match e with EvTabBarSelect i => [i] | _ => [] end) es.

(** The arguments of the calls made to each callback prop, in order. *)
Definition PageSelected_calls (out : list Call) : list Z :=
  flat_map (fun c => match c with PageSelected i => [i] | _ => [] end) out.

Definition PageSelecting_calls (out : list Call) : list Z :=
  flat_map (fun c => match c with PageSelecting i => [i] | _ => [] end) out.

Definition PageScrollStateChanged_calls (out : list Call) : list string :=
  flat_map
    (fun c => match c with PageScrollStateChanged p => [p] | _ => [] end)
    out.

(** A tap on the tab bar or a [setPage] through the ref. *)
Definition is_command (e : Event) : bool :=
  match e with
  | EvTabBarSelect _ | EvSetPage _ => true
  | _ => false
  end.

(** Events that neither open a settle phase nor report a settled page. *)
Definition outside_settle (e : Event) : bool :=
  match e with
  | EvPageScrollStateChanged p => negb (String.eqb p "settling")
  | EvPageSelected _ => false
  | _ => true
  end.

(** The three values [lastDirection] is ever given. *)
Definition is_direction (d : Z) : bool :=
  (d =? -1) || (d =? 0) || (d =? 1).

End Native.

(* ===================================================================== *)
(** ** The web pager *)
(* ===================================================================== *)

Module Web.

Record Props := mkProps {
  initialPage : option Z;
  onPageSelected : bool;
  onPageSelecting : bool
}.

(** Outgoing calls: the two callback props and [window.scrollTo(x, y)]. *)
Inductive Call :=
| PageSelected (index : Z)
| PageSelecting (index : Z)
| WindowScrollTo (x y : float).

(** [scrollYs] is a JS array written and read at arbitrary indices: an
    index never written reads [undefined] ([None]), a written one holds
    [null] ([Some None]) or a number. *)
Record State := mkState {
  selectedPage : Z;                     (* React.useState(initialPage) *)
  scrollYs : gmap Z (option float)      (* React.useRef([]) *)
}.

(** What the handler reads from the browser: [window.scrollY], and the
    [top] of the anchor's bounding rectangle when [anchorRef.current] is
    an element. *)
Record Window := mkWindow {
  scrollY : float;
  anchor : option float
}.

Definition initialPage_or_default (props : Props) : Z :=
  default 0 (initialPage props).

Definition init (props : Props) : State :=
  mkState (initialPage_or_default props) ∅.

Definition renderTabBar_selectedPage (props : Props) (s : State) : Z :=
  selectedPage s.

Definition setSelectedPage (index : Z) (s : State) : State :=
  mkState index (scrollYs s).

Definition setPage (index : Z) (s : State) : State * list Call :=
  (setSelectedPage index s, []).

Definition anchorTop (w : Window) : float :=
  match anchor w with
  | Some top => top
  | None => PrimFloat.opp (scrollY w)
  end.

Definition isSticking (w : Window) : bool :=
  PrimFloat.leb (anchorTop w) 5.

Section Handlers.
Variable props : Props.

(** The callback calls made inside [flushSync], after
    [setSelectedPage(index)]. *)
Definition flushed (index : Z) : list Call :=
  optional_call (onPageSelected props) (PageSelected index)
    ++ optional_call (onPageSelecting props) (PageSelecting index).

(** [window.scrollY] does not move while the handler runs, so its two
    reads are the one [scrollY w]. *)
Definition onTabBarSelect (index : Z) (w : Window) (s : State)
  : State * list Call :=
  let ys :=
    if isSticking w
    then <[selectedPage s := Some (scrollY w)]> (scrollYs s)
    else <[selectedPage s := None]> (scrollYs s) in
  let scrolled :=
    if isSticking w then
      match ys !! index with
      | Some (Some restoredScrollY) => [WindowScrollTo 0 restoredScrollY]
      | _ => [WindowScrollTo 0 (PrimFloat.add (scrollY w) (anchorTop w))]
      end
    else [] in
  (mkState index ys, flushed index ++ scrolled).

End Handlers.

(** Where the page is scrolled to when the tab bar sticks: the position
    recorded for the incoming page, which for a tap on the selected tab is
    the one recorded a moment before. *)
Definition scroll_target (index : Z) (w : Window) (s : State) : float :=
  if decide (index = selectedPage s) then scrollY w
  else match scrollYs s !! index with
       | Some (Some restoredScrollY) => restoredScrollY
       | _ => PrimFloat.add (scrollY w) (anchorTop w)
       end.

(** The claim's wording of "sticking", kept apart from [isSticking]: the
    anchor's top lies within 5 pixels of the viewport top (which is at
    0 in the coordinates of [getBoundingClientRect]). *)
Definition within_5px_of_viewport_top (top : float) : bool :=
  PrimFloat.leb (PrimFloat.abs top) 5.

End Web.

(* ===================================================================== *)
(** ** The mocker's StringIdGenerator *)
(* ===================================================================== *)

Module Mocker.

#[local] Open Scope nat_scope.

Record StringIdGenerator := mkGen {
  _nextId : list nat;
  _chars : string
}.

Definition default_chars : string :=
  "abcdefghijklmnopqrstuvwxyzABCDEFGHIJKLMNOPQRSTUVWXYZ".

(** [new StringIdGenerator(chars)] and [new StringIdGenerator()]. *)
Definition new_with (chars : string) : StringIdGenerator :=
  mkGen [0] chars.
Definition new : StringIdGenerator := new_with default_chars.

(** [r.join('')] on an array of one-character strings; an [undefined]
    element (an index past the end of [_chars]) joins as nothing. *)
Fixpoint join (r : list (option ascii)) : string :=
  match r with
  | [] => EmptyString
  | Some c :: r' => String c (join r')
  | None :: r' => join r'
  end.

(** The loop of [_increment].  [todo] counts the indices from [i] to the
    end of the array, so it reaches 0 exactly when [i < length] fails. *)
Fixpoint _increment_loop (todo i len : nat) (ids : list nat) : list nat :=
  match todo, ids !! i with
  | S todo', Some v =>
      let val := S v in
      if len <=? val
      then _increment_loop todo' (S i) len (<[i := 0]> ids)
      else <[i := val]> ids
  | _, _ => ids ++ [0]
  end.

Definition _increment (g : StringIdGenerator) : StringIdGenerator :=
  mkGen
    (_increment_loop (length (_nextId g)) 0 (String.length (_chars g))
       (_nextId g))
    (_chars g).

(** [for (const char of this._nextId) r.unshift(this._chars[char])] *)
Definition render (chars : string) (ids : list nat) : list (option ascii) :=
  fold_left (fun r char => String.get char chars :: r) ids [].

Definition next (g : StringIdGenerator) : string * StringIdGenerator :=
  (join (render (_chars g) (_nextId g)), _increment g).

(** [n] calls of [next] in a row: the strings returned, in order, and the
    generator afterwards. *)
Fixpoint calls (n : nat) (g : StringIdGenerator)
  : list string * StringIdGenerator :=
  match n with
  | 0 => ([], g)
  | S n' =>
      let '(id, g1) := next g in
      let '(ids, g2) := calls n' g1 in
      (id :: ids, g2)
  end.

(** The generator as the call with zero-based index [n] finds it, and
    what that call returns. *)
Definition before_call (n : nat) (g : StringIdGenerator)
  : StringIdGenerator := snd (calls n g).
Definition call (n : nat) (g : StringIdGenerator) : string :=
  fst (next (before_call n g)).

(** The carry of [_increment] read off the list itself; [_increment_loop]
    is shown to compute it. *)
Fixpoint carry (len : nat) (ids : list nat) : list nat :=
  match ids with
  | [] => [0]
  | v :: rest =>
      if len <=? S v then 0 :: carry len rest else S v :: rest
  end.

(** The value of a digit sequence in bijective base [len]. *)
Fixpoint value (len : nat) (ids : list nat) : nat :=
  match ids with
  | [] => 0
  | v :: rest => S v + len * value len rest
  end.

(** Reverse-mapping an output, the inverse that the round-trip property
    speaks of (the class itself has no parser): the first index of each
    character in the alphabet, as [indexOf] gives it, then the indices
    reversed into storage order. *)
Fixpoint index_of (c : ascii) (chars : string) : option nat :=
  match chars with
  | EmptyString => None
  | String c' rest =>
      if Ascii.eqb c c' then Some 0 else S <$> index_of c rest
  end.

Definition reverse_map (chars : string) (id : string) : option (list nat) :=
  reverse <$> mapM (fun c => index_of c chars) (list_ascii_of_string id).

(** Every stored digit indexes a character of the alphabet. *)
Definition digits_ok (len : nat) (ids : list nat) : Prop :=
  Forall (fun v => v < len) ids.

(** How many strings of 1 to [L] characters an alphabet of [len]
    characters has: [len + len^2 + ... + len^L]. *)
Fixpoint ids_up_to (len L : nat) : nat :=
  match L with
  | 0 => 0
  | S L' => len * S (ids_up_to len L')
  end.

End Mocker.

(* ===================================================================== *)
(** ** The test server's ports and schema names *)
(* ===================================================================== *)

Module TestServer.

(** What a call can throw. *)
Inductive Error :=
| Unable_to_find_an_available_port.

(** The loop of [getPort].  [checkAvailablePort] is asked about each port
    at most once, so its answers are a function of the port.  [todo] counts
    the ports from [i] to 64999, so it reaches 0 exactly when [i < 65000]
    fails. *)
Fixpoint getPort_loop (todo : nat) (checkAvailablePort : Z -> bool) (i : Z)
  : Error + Z :=
  match todo with
  | O => inl Unable_to_find_an_available_port
  | S todo' =>
      if i <? 65000 then
        if checkAvailablePort i then inr i
        else getPort_loop todo' checkAvailablePort (i + 1)
      else inl Unable_to_find_an_available_port
  end.

Definition getPort (checkAvailablePort : Z -> bool) (start : Z) : Error + Z :=
  getPort_loop (Z.to_nat (65000 - start)) checkAvailablePort start.

(** The part of the [TestNetwork.create] argument that [createServer]
    computes. *)
Record NetworkConfig := mkConfig {
  pds_port : Z;
  pds_dbPostgresSchema : string;
  bsky_dbPostgresSchema : string;
  bsky_port : Z;
  plc_port : Z
}.

(** [createServer] up to the call of [TestNetwork.create]: the two port
    searches, each with the answers [checkAvailablePort] gives during it,
    then one id from the module's generator [ids], which is returned as the
    call leaves it. *)
Definition createServer (available2 available3 : Z -> bool)
  (ids : Mocker.StringIdGenerator)
  : (Error + NetworkConfig) * Mocker.StringIdGenerator :=
  let port := 3000 in
  match getPort available2 (port + 1) with
  | inl e => (inl e, ids)
  | inr port2 =>
      match getPort available3 (port2 + 1) with
      | inl e => (inl e, ids)
      | inr port3 =>
          let '(id, ids') := Mocker.next ids in
          (inr (mkConfig port ("pds_" ++ id) ("bsky_" ++ id) port3 port2),
           ids')
      end
  end.

(** A port is the first one from [start] on, below 65000, for which
    [checkAvailablePort] answers yes. *)
Definition first_available (checkAvailablePort : Z -> bool) (start p : Z)
  : Prop :=
  start <= p < 65000
  /\ checkAvailablePort p = true
  /\ forall q, start <= q < p -> checkAvailablePort q = false.

End TestServer.

(* ===================================================================== *)
(** ** Sample props, states and windows *)
(* ===================================================================== *)

(** Every callback supplied, the paging view mounted, a drag towards the
    next page that has just been released. *)
Definition native_props : Native.Props :=
  Native.mkProps (Some 2) true true true.

Definition released_forward : Native.State :=
  Native.mkState 0 0.25%float 1 "settling" true.

Definition web_props : Web.Props := Web.mkProps (Some 2) true true.

(** The page scrolled down by 300 pixels with the anchor 100 pixels above
    the viewport top, the way a stuck tab bar leaves it. *)
Definition scrolled_past_anchor : Web.Window :=
  Web.mkWindow 300%float (Some (-100)%float).

(** The anchor still 40 pixels below the viewport top. *)
Definition anchor_below_top : Web.Window :=
  Web.mkWindow 10%float (Some 40%float).

(** A drag towards the previous page that has just been released, and a
    drag that is still going on. *)
Definition released_backward : Native.State :=
  Native.mkState 1 0.75%float (-1) "settling" true.

Definition dragging : Native.State :=
  Native.mkState 0 0%float 0 "dragging" true.

(** Answers of [checkAvailablePort]: every port free, none free, and the
    ports below 3005 taken. *)
Definition every_port_free : Z -> bool := fun _ => true.
Definition no_port_free : Z -> bool := fun _ => false.
Definition free_from_3005 : Z -> bool := fun port => 3005 <=? port.

(* ===================================================================== *)
(** * Facts about the native pager *)
(* ===================================================================== *)

Section NativeFacts.
Import Native.
Variable props : Props.

Lemma settling_eqb (s : State) :
  scrollState s = "settling" ->
  String.eqb (scrollState s) "settling" = true.
Proof. intros ->. reflexivity. Qed.

(** A zero offset leaves the handler at its first [return]. *)
Lemma onPageScroll_zero (position : Z) (offset : float) (s : State) :
  PrimFloat.eqb offset 0 = true ->
  onPageScroll props position offset s = (s, []).
Proof. intros H. unfold onPageScroll. rewrite H. reflexivity. Qed.

(** Once [lastDirection] is 0, a settle phase passes offsets through
    without a word. *)
Lemma onPageScroll_settling_idle (position : Z) (offset : float)
      (s : State) :
  scrollState s = "settling" ->
  lastDirection s = 0 ->
  snd (onPageScroll props position offset s) = []
  /\ lastDirection (fst (onPageScroll props position offset s)) = 0
  /\ selectedPage (fst (onPageScroll props position offset s))
     = selectedPage s.
Proof.
  intros Hs Hd. unfold onPageScroll.
  destruct (PrimFloat.eqb offset 0); [auto|].
  rewrite (settling_eqb s Hs), Hd. simpl. auto.
Qed.

(** No handler but [handlePageScrollStateChanged] writes [scrollState]. *)
Lemma onPageScroll_scrollState (position : Z) (offset : float)
      (s : State) :
  scrollState (fst (onPageScroll props position offset s)) = scrollState s.
Proof.
  unfold onPageScroll.
  destruct (PrimFloat.eqb offset 0); [reflexivity|].
  destruct (String.eqb (scrollState s) "settling").
  - destruct ((lastDirection s =? -1)
              && PrimFloat.ltb offset (lastOffset s))%bool; [reflexivity|].
    destruct ((lastDirection s =? 1)
              && PrimFloat.ltb (lastOffset s) offset)%bool; reflexivity.
  - destruct (PrimFloat.ltb offset (lastOffset s)); [reflexivity|].
    destruct (PrimFloat.ltb (lastOffset s) offset); reflexivity.
Qed.

Lemma count_PageSelecting_app (a b : list Call) :
  count_PageSelecting (a ++ b)
  = (count_PageSelecting a + count_PageSelecting b)%nat.
Proof.
  unfold count_PageSelecting. rewrite List.filter_app, length_app. reflexivity.
Qed.

Lemma count_PageSelecting_optional (b : bool) (i : Z) :
  (count_PageSelecting (optional_call b (PageSelecting i)) <= 1)%nat.
Proof. destruct b; cbn; lia. Qed.

(** One event of a settle phase: the phase stays, and either nothing is
    announced and [lastDirection] is as before, or at most one
    announcement went out and [lastDirection] is back at 0. *)
Lemma step_within_settle (e : Event) (s : State) :
  scrollState s = "settling" ->
  within_settle e = true ->
  scrollState (fst (step props e s)) = "settling"
  /\ ((count_PageSelecting (snd (step props e s)) = 0%nat
       /\ lastDirection (fst (step props e s)) = lastDirection s)
      \/ ((count_PageSelecting (snd (step props e s)) <= 1)%nat
          /\ lastDirection (fst (step props e s)) = 0)).
Proof.
  intros Hs He. destruct e as [position offset|p|position|index|index];
    simpl in *; try discriminate.
  - split; [rewrite onPageScroll_scrollState; exact Hs|].
    unfold onPageScroll.
    destruct (PrimFloat.eqb offset 0); [left; auto|].
    rewrite (settling_eqb s Hs).
    destruct ((lastDirection s =? -1)
              && PrimFloat.ltb offset (lastOffset s))%bool.
    { right. simpl. split; [apply count_PageSelecting_optional|trivial]. }
    destruct ((lastDirection s =? 1)
              && PrimFloat.ltb (lastOffset s) offset)%bool.
    { right. simpl. split; [apply count_PageSelecting_optional|trivial]. }
    left. simpl. auto.
  - apply String.eqb_eq in He. subst p. split; [reflexivity|].
    left. destruct (onPageScrollStateChanged props); auto.
  - split; [exact Hs|]. left. destruct (onPageSelected props); auto.
  - split; [exact Hs|]. left. unfold pagerView_setPage.
    destruct (pagerView s); auto.
Qed.

Lemma step_settling_idle (e : Event) (s : State) :
  scrollState s = "settling" ->
  lastDirection s = 0 ->
  within_settle e = true ->
  count_PageSelecting (snd (step props e s)) = 0%nat
  /\ lastDirection (fst (step props e s)) = 0.
Proof.
  intros Hs Hd He. destruct e as [position offset|p|position|index|index];
    simpl in *; try discriminate.
  - destruct (onPageScroll_settling_idle position offset s Hs Hd)
      as (-> & -> & _). auto.
  - destruct (onPageScrollStateChanged props); auto.
  - destruct (onPageSelected props); auto.
  - unfold pagerView_setPage. destruct (pagerView s); auto.
Qed.

Lemma run_cons (e : Event) (es : list Event) (s : State) :
  run props (e :: es) s
  = (fst (run props es (fst (step props e s))),
     snd (step props e s) ++ snd (run props es (fst (step props e s)))).
Proof.
  simpl. destruct (step props e s) as [s1 out1]. simpl.
  destruct (run props es s1) as [s2 out2]. reflexivity.
Qed.

Lemma run_settling_idle (es : list Event) (s : State) :
  scrollState s = "settling" ->
  lastDirection s = 0 ->
  Forall (fun e => within_settle e = true) es ->
  count_PageSelecting (snd (run props es s)) = 0%nat
  /\ lastDirection (fst (run props es s)) = 0.
Proof.
  intros Hs Hd Hes. revert s Hs Hd.
  induction Hes as [|e es He _ IH]; intros s Hs Hd; [auto|].
  rewrite run_cons. simpl.
  destruct (step_settling_idle e s Hs Hd He) as [Hc Hd'].
  destruct (step_within_settle e s Hs He) as [Hs' _].
  destruct (IH _ Hs' Hd') as [Hc2 Hd2].
  rewrite count_PageSelecting_app, Hc, Hc2. auto.
Qed.

(** C6.  A run of [onPageScroll] events whose offset is 0 (either sign)
    changes nothing and calls nothing: the whole state record, so
    [selectedPage], [lastOffset] and [lastDirection], is the one the run
    started from, after each event and at the end. *)
Theorem zero_offset_scrolls_are_noops (es : list Event) (s : State) :
  Forall (fun e => is_zero_scroll e = true) es ->
  run props es s = (s, []).
Proof.
  induction 1 as [|e es He _ IH]; [reflexivity|].
  destruct e as [position offset| | | |]; try discriminate.
  rewrite run_cons. simpl in He |- *.
  rewrite (onPageScroll_zero position offset s He). simpl.
  rewrite IH. reflexivity.
Qed.

(** C3.  In the settling phase with [lastDirection = 1], a nonzero offset
    above [lastOffset] makes [onPageScroll] call
    [onPageSelecting(position + 1)] exactly once, commit
    [selectedPage = position + 1] and leave [lastDirection = 0]; from the
    state it leaves, no later offset of the phase announces anything. *)
Theorem settling_forward_commits_next_page
        (position : Z) (offset : float) (s : State) :
  onPageSelecting props = true ->
  PrimFloat.eqb offset 0 = false ->
  scrollState s = "settling" ->
  lastDirection s = 1 ->
  PrimFloat.ltb (lastOffset s) offset = true ->
  let s' := fst (onPageScroll props position offset s) in
  snd (onPageScroll props position offset s)
    = [PageSelecting (position + 1)]
  /\ selectedPage s' = position + 1
  /\ lastDirection s' = 0
  /\ lastOffset s' = offset
  /\ forall position' offset',
       snd (onPageScroll props position' offset' s') = []
       /\ lastDirection (fst (onPageScroll props position' offset' s')) = 0.
Proof.
  intros Hp Hz Hs Hd Hlt s'.
  assert (E : onPageScroll props position offset s
              = (set_lastOffset offset
                   (set_lastDirection 0
                      (setSelectedPage (position + 1) s)),
                 [PageSelecting (position + 1)])).
  { unfold onPageScroll.
    rewrite Hz, (settling_eqb s Hs), Hd, Hlt, Hp. reflexivity. }
  subst s'. rewrite E. simpl. repeat split; try reflexivity.
  - apply onPageScroll_settling_idle; [exact Hs | reflexivity].
  - apply onPageScroll_settling_idle; [exact Hs | reflexivity].
Qed.

(** C5.  Between entering the settling phase and the next change of
    phase, whatever [onPageScroll] events arrive (and page-selected
    events, [setPage] calls and repeated settling notices with them),
    [onPageSelecting] is called at most once; when it has been called
    [lastDirection] is 0, and when it has not [lastDirection] is what it
    was on entry, since the settling branch writes it only to reset it. *)
Theorem settle_phase_announces_at_most_once (es : list Event) (s : State) :
  scrollState s = "settling" ->
  Forall (fun e => within_settle e = true) es ->
  (count_PageSelecting (snd (run props es s)) <= 1)%nat
  /\ (count_PageSelecting (snd (run props es s)) = 1%nat ->
      lastDirection (fst (run props es s)) = 0)
  /\ (count_PageSelecting (snd (run props es s)) = 0%nat ->
      lastDirection (fst (run props es s)) = lastDirection s
      \/ lastDirection (fst (run props es s)) = 0).
Proof.
  intros Hs Hes. revert s Hs.
  induction Hes as [|e es He Hes IH]; intros s Hs.
  - unfold count_PageSelecting. simpl.
    repeat split; [lia | discriminate | auto].
  - rewrite run_cons. simpl. rewrite count_PageSelecting_app.
    destruct (step_within_settle e s Hs He) as [Hs' [[Hc Hd]|[Hc Hd]]].
    + destruct (IH _ Hs') as (H1 & H2 & H3). rewrite Hc, Hd in *.
      simpl. auto.
    + destruct (run_settling_idle es _ Hs' Hd Hes) as [Hc2 Hd2].
      rewrite Hc2, Hd2, Nat.add_0_r. repeat split; auto.
Qed.

End NativeFacts.

Lemma zero_offset_scrolls_are_noops_witness :
  Forall (fun e => Native.is_zero_scroll e = true)
    [Native.EvPageScroll 3 0%float; Native.EvPageScroll 4 (-0)%float]
  /\ Native.run native_props
       [Native.EvPageScroll 3 0%float; Native.EvPageScroll 4 (-0)%float]
       released_forward
     = (released_forward, []).
Proof.
  assert (H : Forall (fun e => Native.is_zero_scroll e = true)
                [Native.EvPageScroll 3 0%float;
                 Native.EvPageScroll 4 (-0)%float]).
  { repeat constructor. }
  split; [exact H|].
  exact (zero_offset_scrolls_are_noops native_props _ released_forward H).
Defined.

Lemma settling_forward_commits_next_page_witness :
  snd (Native.onPageScroll native_props 0 0.5%float released_forward)
  = [Native.PageSelecting 1]
  /\ Native.selectedPage
       (fst (Native.onPageScroll native_props 0 0.5%float released_forward))
     = 1.
Proof.
  pose proof (settling_forward_commits_next_page native_props 0 0.5%float
                released_forward eq_refl eq_refl eq_refl eq_refl eq_refl)
    as (H1 & H2 & _).
  split; [exact H1 | exact H2].
Defined.

Lemma settle_phase_announces_at_most_once_witness :
  (Native.count_PageSelecting
     (snd (Native.run native_props
             [Native.EvPageScroll 0 0.5%float;
              Native.EvPageScroll 0 0.75%float;
              Native.EvPageSelected 1]
             released_forward)) <= 1)%nat.
Proof.
  refine (proj1 (settle_phase_announces_at_most_once native_props
                   [Native.EvPageScroll 0 0.5%float;
                    Native.EvPageScroll 0 0.75%float;
                    Native.EvPageSelected 1]
                   released_forward eq_refl _)).
  repeat constructor.
Defined.

(* ===================================================================== *)
(** * Facts about [setPage] and the initial page, on both platforms *)
(* ===================================================================== *)

(** C1, as stated, fails on the native pager: from the initial state
    [setPage(1)] leaves [selectedPage] at 0 and [onPageSelected] is not
    called; the only call made is the command to the paging view. *)
Lemma setPage_commits_at_once_counterexample :
  Native.selectedPage
    (fst (Native.setPage 1 (Native.init native_props true))) <> 1
  /\ ~ In (Native.PageSelected 1)
         (snd (Native.setPage 1 (Native.init native_props true)))
  /\ snd (Native.setPage 1 (Native.init native_props true))
     = [Native.PagerViewSetPage 1].
Proof.
  split; [discriminate|]. split; [|reflexivity].
  simpl. intros [H|[]]. discriminate H.
Qed.

(** The web [setPage] calls none of the callback props either. *)
Lemma web_setPage_calls_nothing (k : Z) (s : Web.State) :
  snd (Web.setPage k s) = [].
Proof. reflexivity. Qed.

(** C1, amended.  On the web, [setPage(k)] commits [selectedPage = k] at
    once, with no event before it, and leaves [scrollYs] alone.  On native,
    [setPage(k)] hands [setPage(k)] to the mounted paging view and changes
    nothing in the component; the commit [selectedPage = k] and the one
    [onPageSelected(k)] call come with the paging view's page-selected
    event for [k].  Neither path touches [lastOffset] or [lastDirection] or
    calls [onPageSelecting]. *)
Theorem setPage_commit_by_platform
        (props : Native.Props) (k : Z) (s : Native.State) (w : Web.State) :
  Native.pagerView s = true ->
  Native.onPageSelected props = true ->
  (Web.selectedPage (fst (Web.setPage k w)) = k
   /\ Web.scrollYs (fst (Web.setPage k w)) = Web.scrollYs w)
  /\ Native.run props [Native.EvSetPage k] s
     = (s, [Native.PagerViewSetPage k])
  /\ Native.run props [Native.EvSetPage k; Native.EvPageSelected k] s
     = (Native.setSelectedPage k s,
        [Native.PagerViewSetPage k; Native.PageSelected k]).
Proof.
  intros Hm Hp. split; [split; reflexivity|].
  simpl. unfold Native.pagerView_setPage. rewrite Hm, Hp. simpl.
  split; reflexivity.
Qed.

Lemma setPage_commit_by_platform_witness :
  Native.run native_props [Native.EvSetPage 1; Native.EvPageSelected 1]
    (Native.init native_props true)
  = (Native.setSelectedPage 1 (Native.init native_props true),
     [Native.PagerViewSetPage 1; Native.PageSelected 1]).
Proof.
  exact (proj2 (proj2 (setPage_commit_by_platform native_props 1
                         (Native.init native_props true)
                         (Web.init web_props) eq_refl eq_refl))).
Defined.

(** C10.  With [initialPage = p], the native pager starts with
    [selectedPage = 0], which is what its first render gives
    [renderTabBar]; the web pager starts with [selectedPage = p]; so the
    two differ exactly when [p] is not 0. *)
Theorem initial_selectedPage_by_platform
        (p : Z) (np : Native.Props) (wp : Web.Props) (mounted : bool) :
  Native.initialPage np = Some p ->
  Web.initialPage wp = Some p ->
  Native.renderTabBar_selectedPage np (Native.init np mounted) = 0
  /\ Web.renderTabBar_selectedPage wp (Web.init wp) = p
  /\ (p <> 0 ->
      Native.renderTabBar_selectedPage np (Native.init np mounted)
      <> Web.renderTabBar_selectedPage wp (Web.init wp)).
Proof.
  intros Hn Hw.
  unfold Web.renderTabBar_selectedPage, Web.init, Web.initialPage_or_default.
  rewrite Hw. simpl. repeat split. congruence.
Qed.

Lemma initial_selectedPage_by_platform_witness :
  Native.renderTabBar_selectedPage native_props
    (Native.init native_props false) = 0
  /\ Web.renderTabBar_selectedPage web_props (Web.init web_props) = 2.
Proof.
  pose proof (initial_selectedPage_by_platform 2 native_props web_props false
                eq_refl eq_refl) as (H1 & H2 & _).
  split; [exact H1 | exact H2].
Defined.

(* ===================================================================== *)
(** * Facts about the web pager's tab selection *)
(* ===================================================================== *)

Section WebFacts.
Import Web.
Variable props : Props.

(** C9, amended.  [onSelect(index)] commits [selectedPage = index] and
    writes only the outgoing page's entry of [scrollYs].  When the anchor's
    top is at most 5 pixels below the viewport top, above it included
    ([anchorTop <= 5], with [-scrollY] standing for the top of an absent
    anchor), the entry is the current [scrollY] and, after the callbacks,
    the window is scrolled to the position recorded for the incoming page,
    or to [scrollY + anchorTop] when none is.  Otherwise the entry is
    [null] and nothing is scrolled. *)
Theorem onTabBarSelect_scroll_restoration
        (index : Z) (w : Window) (s : State) :
  selectedPage (fst (onTabBarSelect props index w s)) = index
  /\ (forall j, j <> selectedPage s ->
        scrollYs (fst (onTabBarSelect props index w s)) !! j
        = scrollYs s !! j)
  /\ (PrimFloat.leb (anchorTop w) 5 = true ->
      scrollYs (fst (onTabBarSelect props index w s)) !! selectedPage s
      = Some (Some (scrollY w))
      /\ snd (onTabBarSelect props index w s)
         = flushed props index
           ++ [WindowScrollTo 0 (scroll_target index w s)])
  /\ (PrimFloat.leb (anchorTop w) 5 = false ->
      scrollYs (fst (onTabBarSelect props index w s)) !! selectedPage s
      = Some None
      /\ snd (onTabBarSelect props index w s) = flushed props index).
Proof.
  unfold onTabBarSelect, isSticking, scroll_target, flushed.
  split; [reflexivity|]. split; [|split].
  - intros j Hj. simpl.
    destruct (PrimFloat.leb (anchorTop w) 5);
      rewrite lookup_insert_ne by congruence; reflexivity.
  - intros H. rewrite H. simpl. split; [apply lookup_insert_eq|].
    f_equal. destruct (decide (index = selectedPage s)) as [->|Hne].
    + rewrite lookup_insert_eq. reflexivity.
    + rewrite lookup_insert_ne by congruence.
      destruct (scrollYs s !! index) as [[y|]|]; reflexivity.
  - intros H. rewrite H. simpl. split; [apply lookup_insert_eq|].
    apply app_nil_r.
Qed.

End WebFacts.

(** C9, as stated, fails when the anchor is far above the viewport top:
    at [top = -100] it is not within 5 pixels of it, yet the outgoing
    page's entry is 300, not [null], and the window is scrolled. *)
Lemma onSelect_within_5px_counterexample :
  Web.within_5px_of_viewport_top (-100)%float = false
  /\ Web.scrollYs
       (fst (Web.onTabBarSelect web_props 1 scrolled_past_anchor
               (Web.init web_props))) !! 2
     = Some (Some 300%float)
  /\ snd (Web.onTabBarSelect web_props 1 scrolled_past_anchor
            (Web.init web_props))
     = [Web.PageSelected 1; Web.PageSelecting 1;
        Web.WindowScrollTo 0 200%float].
Proof. repeat split; reflexivity. Qed.

Lemma onTabBarSelect_scroll_restoration_witness :
  snd (Web.onTabBarSelect web_props 1 scrolled_past_anchor
         (Web.init web_props))
  = Web.flushed web_props 1
      ++ [Web.WindowScrollTo 0
            (Web.scroll_target 1 scrolled_past_anchor
               (Web.init web_props))]
  /\ snd (Web.onTabBarSelect web_props 1 anchor_below_top
            (Web.init web_props))
     = Web.flushed web_props 1.
Proof.
  split.
  - exact (proj2 (proj1 (proj2 (proj2
             (onTabBarSelect_scroll_restoration web_props 1
                scrolled_past_anchor (Web.init web_props)))) eq_refl)).
  - exact (proj2 (proj2 (proj2 (proj2
             (onTabBarSelect_scroll_restoration web_props 1
                anchor_below_top (Web.init web_props)))) eq_refl)).
Defined.

(* ===================================================================== *)
(** * Facts about the StringIdGenerator *)
(* ===================================================================== *)

Section GeneratorLoop.
Import Mocker.
#[local] Open Scope nat_scope.

(** The index loop of [_increment], started anywhere in the array, leaves
    what lies before the index and carries through the rest. *)
Lemma _increment_loop_carry (len : nat) (post pre : list nat) :
  _increment_loop (length post) (length pre) len (pre ++ post)
  = pre ++ carry len post.
Proof.
  revert pre. induction post as [|v rest IH]; intros pre.
  - simpl. rewrite app_nil_r. destruct ((pre !! length pre)); reflexivity.
  - simpl. rewrite list_lookup_middle by reflexivity.
    assert (Hins : forall x, <[length pre := x]> (pre ++ v :: rest)
                             = pre ++ x :: rest).
    { intros x. rewrite insert_app_r_alt by lia.
      rewrite Nat.sub_diag. reflexivity. }
    rewrite !Hins.
    destruct (len <=? S v); [|reflexivity].
    replace (S (length pre)) with (length (pre ++ [0]))
      by (rewrite length_app; simpl; lia).
    replace (pre ++ 0 :: rest) with ((pre ++ [0]) ++ rest)
      by (rewrite <- app_assoc; reflexivity).
    rewrite IH, <- app_assoc. reflexivity.
Qed.

Lemma _increment_carry (g : StringIdGenerator) :
  _increment g
  = mkGen (carry (String.length (_chars g)) (_nextId g)) (_chars g).
Proof.
  unfold _increment. f_equal.
  exact (_increment_loop_carry _ (_nextId g) []).
Qed.

(** [unshift] in a loop builds the array back to front. *)
Lemma render_cons (chars : string) (v : nat) (ids : list nat) :
  render chars (v :: ids) = render chars ids ++ [String.get v chars].
Proof.
  unfold render.
  assert (G : forall (l : list nat) (acc : list (option ascii)),
             fold_left (fun r char => String.get char chars :: r) l acc
             = fold_left (fun r char => String.get char chars :: r) l []
               ++ acc).
  { induction l as [|x l IH]; intros acc; [reflexivity|].
    simpl. rewrite (IH [String.get x chars]), (IH (_ :: acc)).
    rewrite <- app_assoc. reflexivity. }
  simpl. apply G.
Qed.

Lemma join_app (r1 r2 : list (option ascii)) :
  join (r1 ++ r2) = (join r1 ++ join r2)%string.
Proof.
  induction r1 as [|[c|] r1 IH]; simpl; [reflexivity| |exact IH].
  rewrite IH. reflexivity.
Qed.

Lemma list_ascii_of_string_app (a b : string) :
  list_ascii_of_string (a ++ b)
  = list_ascii_of_string a ++ list_ascii_of_string b.
Proof.
  induction a as [|c a IH]; simpl; [reflexivity|].
  rewrite IH. reflexivity.
Qed.

Lemma calls_S (n : nat) (g : StringIdGenerator) :
  calls (S n) g
  = (fst (next g) :: fst (calls n (_increment g)),
     snd (calls n (_increment g))).
Proof.
  simpl. destruct (calls n (_increment g)) as [ids g2]. reflexivity.
Qed.

Lemma before_call_S (n : nat) (g : StringIdGenerator) :
  before_call (S n) g = before_call n (_increment g).
Proof. unfold before_call. rewrite calls_S. reflexivity. Qed.

Lemma before_call_S_r (n : nat) (g : StringIdGenerator) :
  before_call (S n) g = _increment (before_call n g).
Proof.
  revert g. induction n as [|n IH]; intros g; [reflexivity|].
  rewrite before_call_S, IH, <- before_call_S. reflexivity.
Qed.

Lemma before_call_chars (n : nat) (g : StringIdGenerator) :
  _chars (before_call n g) = _chars g.
Proof.
  induction n as [|n IH]; [reflexivity|].
  rewrite before_call_S_r. simpl. exact IH.
Qed.

Lemma carry_digits_ok (len : nat) (ids : list nat) :
  0 < len -> digits_ok len ids -> digits_ok len (carry len ids).
Proof.
  unfold digits_ok. intros Hlen.
  induction 1 as [|v rest Hv Hrest IH]; simpl.
  - repeat constructor. exact Hlen.
  - destruct (Nat.leb_spec len (S v)); constructor; auto; lia.
Qed.

(** One [_increment] is one step of the bijective base-[len] count. *)
Lemma carry_value (len : nat) (ids : list nat) :
  digits_ok len ids -> value len (carry len ids) = S (value len ids).
Proof.
  unfold digits_ok. induction 1 as [|v rest Hv _ IH]; simpl; [lia|].
  destruct (Nat.leb_spec len (S v)); simpl; [|lia].
  rewrite IH. assert (S v = len) as <- by lia. lia.
Qed.

Lemma carry_head (len v : nat) (rest : list nat) :
  v < len -> head (carry len (v :: rest)) = Some (S v mod len).
Proof.
  intros Hv. simpl. destruct (Nat.leb_spec len (S v)); simpl.
  - assert (S v = len) as -> by lia.
    rewrite Nat.Div0.mod_same. reflexivity.
  - rewrite Nat.mod_small by lia. reflexivity.
Qed.

End GeneratorLoop.

Section Alphabet.
Import Mocker.
#[local] Open Scope nat_scope.

(** An alphabet with at least one character and no character twice. *)
Variable chars : string.
Hypothesis chars_inhabited : 0 < String.length chars.
Hypothesis chars_NoDup : NoDup (list_ascii_of_string chars).

(** The digits that the call with index [n] of a fresh generator finds:
    all in range, worth [n + 1], the first of them [n] modulo the length
    of the alphabet. *)
Lemma before_call_digits (n : nat) :
  let ids := _nextId (before_call n (new_with chars)) in
  digits_ok (String.length chars) ids
  /\ value (String.length chars) ids = S n
  /\ head ids = Some (n mod String.length chars).
Proof.
  induction n as [|n (Hok & Hval & Hhd)]; simpl in *.
  - split; [repeat constructor; exact chars_inhabited|].
    split; [lia|]. rewrite Nat.Div0.mod_0_l. reflexivity.
  - rewrite before_call_S_r, _increment_carry, before_call_chars. simpl.
    split; [apply carry_digits_ok; [exact chars_inhabited | exact Hok]|].
    split; [rewrite carry_value, Hval by exact Hok; reflexivity|].
    destruct (_nextId (before_call n (new_with chars))) as [|v rest];
      [discriminate|].
    simpl in Hhd. injection Hhd as ->.
    rewrite carry_head by (apply Nat.mod_upper_bound; lia).
    f_equal. rewrite <- Nat.add_1_r, Nat.Div0.add_mod_idemp_l.
    f_equal. lia.
Qed.

Lemma get_elem (s : string) (i : nat) (c : ascii) :
  String.get i s = Some c -> c ∈ list_ascii_of_string s.
Proof.
  revert i. induction s as [|c' s IH]; intros [|i]; simpl; try discriminate.
  - intros [= ->]. apply elem_of_cons. left. reflexivity.
  - intros H. apply elem_of_cons. right. eapply IH, H.
Qed.

Lemma get_lt (s : string) (i : nat) :
  i < String.length s -> exists c, String.get i s = Some c.
Proof.
  revert i. induction s as [|c' s IH]; intros [|i]; simpl; try lia.
  - exists c'. reflexivity.
  - intros H. apply IH. lia.
Qed.

(** In an alphabet without repeats [indexOf] undoes indexing. *)
Lemma index_of_get_gen (s : string) (i : nat) (c : ascii) :
  NoDup (list_ascii_of_string s) ->
  String.get i s = Some c -> index_of c s = Some i.
Proof.
  revert i. induction s as [|c' s IH]; intros i Hnd;
    [destruct i; discriminate|].
  simpl in Hnd. apply NoDup_cons in Hnd as [Hnotin Hnd].
  destruct i as [|i]; simpl.
  - intros [= ->]. rewrite Ascii.eqb_refl. reflexivity.
  - intros Hget. destruct (Ascii.eqb_spec c c') as [->|_].
    + exfalso. apply Hnotin. eapply get_elem, Hget.
    + rewrite (IH i Hnd Hget). reflexivity.
Qed.

(** Reverse-mapping the rendering of in-range digits gives them back. *)
Lemma reverse_map_render (ids : list nat) :
  digits_ok (String.length chars) ids ->
  reverse_map chars (join (render chars ids)) = Some ids.
Proof.
  intros Hok. unfold reverse_map.
  assert (Forall2 (fun c v => index_of c chars = Some v)
            (list_ascii_of_string (join (render chars ids))) (reverse ids))
    as HF.
  { induction Hok as [|v rest Hv _ IH]; [constructor|].
    rewrite render_cons, join_app, list_ascii_of_string_app, reverse_cons.
    apply Forall2_app; [exact IH|].
    destruct (get_lt chars v Hv) as [c Hc]. rewrite Hc. simpl.
    repeat constructor. apply index_of_get_gen; assumption. }
  rewrite (mapM_Some_2 _ _ _ HF). simpl. rewrite reverse_involutive.
  reflexivity.
Qed.

Lemma reverse_map_call (n : nat) :
  reverse_map chars (call n (new_with chars))
  = Some (_nextId (before_call n (new_with chars))).
Proof.
  unfold call, next. simpl. rewrite before_call_chars. simpl.
  apply reverse_map_render, before_call_digits.
Qed.

Lemma call_inj (n m : nat) :
  call n (new_with chars) = call m (new_with chars) -> n = m.
Proof.
  intros H.
  pose proof (reverse_map_call n) as Hn. rewrite H, reverse_map_call in Hn.
  injection Hn as Hn.
  destruct (before_call_digits n) as (_ & Vn & _).
  destruct (before_call_digits m) as (_ & Vm & _).
  rewrite <- Hn, Vm in Vn. lia.
Qed.

(** Over such an alphabet a generator returns no string twice, from
    whatever point of its life the calls are counted. *)
Lemma calls_NoDup (n k : nat) :
  NoDup (fst (calls n (before_call k (new_with chars))))
  /\ forall id, id ∈ fst (calls n (before_call k (new_with chars))) ->
                exists j, k <= j /\ id = call j (new_with chars).
Proof.
  revert k. induction n as [|n IH]; intros k.
  - split; [constructor | inversion 1].
  - rewrite calls_S, <- before_call_S_r. simpl.
    destruct (IH (S k)) as [Hnd Hel]. split.
    + apply NoDup_cons. split; [|exact Hnd].
      intros Hin. destruct (Hel _ Hin) as (j & Hj & Heq).
      apply (call_inj k j) in Heq. lia.
    + intros id [->|Hin]%elem_of_cons.
      * exists k. split; [lia | reflexivity].
      * destruct (Hel _ Hin) as (j & Hj & ->). exists j.
        split; [lia | reflexivity].
Qed.

(** The least-significant digit, the one that changes at every call, is
    the last character of what the call returns. *)
Lemma call_last_char (n : nat) :
  exists (front : string) (c : ascii),
    String.get (n mod String.length chars) chars = Some c
    /\ call n (new_with chars) = (front ++ String c EmptyString)%string.
Proof.
  destruct (before_call_digits n) as (_ & _ & Hhd).
  unfold call, next. simpl. rewrite before_call_chars. simpl.
  destruct (_nextId (before_call n (new_with chars))) as [|v rest];
    [discriminate|].
  simpl in Hhd. injection Hhd as ->.
  destruct (get_lt chars (n mod (String.length chars))) as [c Hc];
    [apply Nat.mod_upper_bound; lia|].
  exists (join (render chars rest)), c. split; [exact Hc|].
  rewrite render_cons, join_app, Hc. reflexivity.
Qed.

End Alphabet.

Section DefaultAlphabet.
Import Mocker.
#[local] Open Scope nat_scope.

Lemma default_chars_length : String.length default_chars = 52.
Proof. reflexivity. Qed.

Lemma default_chars_inhabited : 0 < String.length default_chars.
Proof. rewrite default_chars_length. lia. Qed.

Lemma default_chars_NoDup : NoDup (list_ascii_of_string default_chars).
Proof. apply (bool_decide_unpack _). vm_compute. reflexivity. Qed.

Lemma calls_length (n : nat) (g : StringIdGenerator) :
  length (fst (calls n g)) = n.
Proof.
  revert g. induction n as [|n IH]; intros g; [reflexivity|].
  rewrite calls_S. simpl. rewrite IH. reflexivity.
Qed.

(** An alphabet that repeats a character makes the generator repeat
    itself at once. *)
Lemma repeated_character_repeats :
  fst (calls 2 (new_with "aa")) = ["a"; "a"]%string.
Proof. reflexivity. Qed.

(** C2, as stated, fails: the default alphabet has 52 characters, not 62,
    and the call with index 52, one of the first 62, does not return a
    single character. *)
Lemma alphabet_of_62_counterexample :
  String.length default_chars <> 62
  /\ String.length (call 52 new) <> 1.
Proof. split; vm_compute; discriminate. Qed.

(** C2, amended.  The default alphabet has 52 characters; a fresh
    generator returns one-character strings at its first 52 calls and a
    two-character string, for the first time, at the 53rd (index 52). *)
Theorem first_two_character_id :
  String.length default_chars = 52
  /\ map String.length (fst (calls 53 new)) = repeat 1 52 ++ [2].
Proof. split; vm_compute; reflexivity. Qed.

(** C4.  However many times [next] is called on one generator, and from
    whatever point of its life, the [N] strings returned are [N] strings
    with no two equal; and two calls of a generator's life that return the
    same string are the same call. *)
Theorem next_never_repeats (N k : nat) :
  length (fst (calls N (before_call k new))) = N
  /\ NoDup (fst (calls N (before_call k new)))
  /\ forall n m, (call n new = call m new) <-> n = m.
Proof.
  split; [apply calls_length|]. split.
  - exact (proj1 (calls_NoDup default_chars default_chars_inhabited
                    default_chars_NoDup N k)).
  - intros n m. split; [|intros ->; reflexivity].
    exact (call_inj default_chars default_chars_inhabited
             default_chars_NoDup n m).
Qed.

(** C7.  At every call, mapping each character of the returned string back
    to its index in the alphabet and reversing the indices into storage
    order gives exactly the digits [_nextId] held when the string was
    rendered. *)
Theorem reverse_mapping_recovers_digits (n : nat) :
  reverse_map default_chars (call n new)
  = Some (_nextId (before_call n new)).
Proof.
  exact (reverse_map_call default_chars default_chars_inhabited
           default_chars_NoDup n).
Qed.

(** C8, as stated, fails at the call after ["aa"]: it returns ["ab"]. *)
Lemma second_two_character_id_counterexample :
  call 52 new = "aa"%string
  /\ call 53 new = "ab"%string
  /\ call 53 new <> "ba"%string.
Proof. repeat split; vm_compute; discriminate. Qed.

(** C8, amended.  A fresh generator returns each character of the
    alphabet in order, ["a"] to ["Z"], then ["aa"], then ["ab"]; at every
    call the least-significant digit, which steps through the alphabet
    from one call to the next, is the last character of the string. *)
Theorem output_sequence_begins :
  fst (calls 54 new)
  = map (fun c => String c EmptyString) (list_ascii_of_string default_chars)
      ++ ["aa"; "ab"]%string
  /\ forall n, exists (front : string) (c : ascii),
       String.get (n mod 52) default_chars = Some c
       /\ call n new = (front ++ String c EmptyString)%string.
Proof.
  split; [vm_compute; reflexivity|].
  exact (call_last_char default_chars default_chars_inhabited).
Qed.

End DefaultAlphabet.

(* ===================================================================== *)
(** * More about the native pager: the other branches and whole runs *)
(* ===================================================================== *)

Section NativeRuns.
Import Native.
Variable props : Props.

Lemma not_settling_eqb (s : State) :
  scrollState s <> "settling" ->
  String.eqb (scrollState s) "settling" = false.
Proof. intros H. apply String.eqb_neq. exact H. Qed.

(** X1.  In the settling phase with [lastDirection = -1], a nonzero offset
    below [lastOffset] makes [onPageScroll] call [onPageSelecting(position)]
    exactly once, commit [selectedPage = position] and leave
    [lastDirection = 0]. *)
Theorem settling_backward_commits_this_page
        (position : Z) (offset : float) (s : State) :
  onPageSelecting props = true ->
  PrimFloat.eqb offset 0 = false ->
  scrollState s = "settling" ->
  lastDirection s = -1 ->
  PrimFloat.ltb offset (lastOffset s) = true ->
  onPageScroll props position offset s
  = (mkState position offset 0 "settling" (pagerView s),
     [PageSelecting position]).
Proof.
  intros Hp Hz Hs Hd Hlt. unfold onPageScroll.
  rewrite Hz, (settling_eqb s Hs), Hd, Hlt, Hp. simpl.
  unfold set_lastOffset, set_lastDirection, setSelectedPage. simpl.
  rewrite Hs. reflexivity.
Qed.

(** X2.  In the settling phase an offset that does not continue the
    recorded direction (no direction recorded, or the offset moving the
    other way or not at all) announces nothing and commits nothing; only
    [lastOffset] takes the new offset, and the recorded direction stays
    for the offsets still to come. *)
Theorem settling_unconfirmed_waits
        (position : Z) (offset : float) (s : State) :
  PrimFloat.eqb offset 0 = false ->
  scrollState s = "settling" ->
  (lastDirection s = -1 -> PrimFloat.ltb offset (lastOffset s) = false) ->
  (lastDirection s = 1 -> PrimFloat.ltb (lastOffset s) offset = false) ->
  onPageScroll props position offset s = (set_lastOffset offset s, []).
Proof.
  intros Hz Hs Hb Hf. unfold onPageScroll.
  rewrite Hz, (settling_eqb s Hs).
  destruct (Z.eqb_spec (lastDirection s) (-1)) as [E|_].
  - rewrite (Hb E). simpl. rewrite E. reflexivity.
  - simpl. destruct (Z.eqb_spec (lastDirection s) 1) as [E|_];
      [rewrite (Hf E)|]; reflexivity.
Qed.

(** X3.  Outside the settling phase [onPageScroll] only tracks: it calls
    nothing and leaves [selectedPage] and [scrollState] alone, stores the
    offset in [lastOffset], and sets [lastDirection] to -1 for a smaller
    offset, to 1 for a larger one, and keeps it for an equal one. *)
Theorem tracking_outside_settle
        (position : Z) (offset : float) (s : State) :
  PrimFloat.eqb offset 0 = false ->
  scrollState s <> "settling" ->
  let s' := fst (onPageScroll props position offset s) in
  snd (onPageScroll props position offset s) = []
  /\ selectedPage s' = selectedPage s
  /\ scrollState s' = scrollState s
  /\ lastOffset s' = offset
  /\ lastDirection s'
     = (if PrimFloat.ltb offset (lastOffset s) then -1
        else if PrimFloat.ltb (lastOffset s) offset then 1
             else lastDirection s).
Proof.
  intros Hz Hs. unfold onPageScroll.
  rewrite Hz, (not_settling_eqb s Hs).
  destruct (PrimFloat.ltb offset (lastOffset s)); [simpl; auto 6|].
  destruct (PrimFloat.ltb (lastOffset s) offset); simpl; auto 6.
Qed.

Lemma step_direction (e : Event) (s : State) :
  is_direction (lastDirection s) = true ->
  is_direction (lastDirection (fst (step props e s))) = true.
Proof.
  intros H. destruct e as [position offset|p|position|index|index];
    simpl; try exact H.
  unfold onPageScroll.
  destruct (PrimFloat.eqb offset 0); [exact H|].
  destruct (String.eqb (scrollState s) "settling").
  - destruct ((lastDirection s =? -1)
              && PrimFloat.ltb offset (lastOffset s))%bool; [reflexivity|].
    destruct ((lastDirection s =? 1)
              && PrimFloat.ltb (lastOffset s) offset)%bool;
      [reflexivity | exact H].
  - destruct (PrimFloat.ltb offset (lastOffset s)); [reflexivity|].
    destruct (PrimFloat.ltb (lastOffset s) offset); [reflexivity | exact H].
Qed.

(** X4.  Whatever events arrive, in whatever order, [lastDirection] is
    one of -1, 0 and 1 once it was, as it is in the initial state. *)
Theorem lastDirection_stays_a_direction (es : list Event) (s : State) :
  is_direction (lastDirection s) = true ->
  is_direction (lastDirection (fst (run props es s))) = true.
Proof.
  revert s. induction es as [|e es IH]; intros s H; [exact H|].
  rewrite run_cons. simpl. apply IH, step_direction, H.
Qed.

Lemma calls_of_optional_PageSelecting (b : bool) (i : Z) :
  PageSelected_calls (optional_call b (PageSelecting i)) = []
  /\ PageScrollStateChanged_calls (optional_call b (PageSelecting i)) = [].
Proof. destruct b; split; reflexivity. Qed.

(** What [onPageScroll] calls is never [onPageSelected] nor
    [onPageScrollStateChanged]. *)
Lemma onPageScroll_calls (position : Z) (offset : float) (s : State) :
  PageSelected_calls (snd (onPageScroll props position offset s)) = []
  /\ PageScrollStateChanged_calls
       (snd (onPageScroll props position offset s)) = [].
Proof.
  unfold onPageScroll.
  destruct (PrimFloat.eqb offset 0); [split; reflexivity|].
  destruct (String.eqb (scrollState s) "settling").
  - destruct ((lastDirection s =? -1)
              && PrimFloat.ltb offset (lastOffset s))%bool;
      [apply calls_of_optional_PageSelecting|].
    destruct ((lastDirection s =? 1)
              && PrimFloat.ltb (lastOffset s) offset)%bool;
      [apply calls_of_optional_PageSelecting | split; reflexivity].
  - destruct (PrimFloat.ltb offset (lastOffset s)); [split; reflexivity|].
    destruct (PrimFloat.ltb (lastOffset s) offset); split; reflexivity.
Qed.

(** X5.  With [onPageSelected] and [onPageScrollStateChanged] supplied,
    the calls a run makes to them are the paging view's page-selected and
    scroll-state events, one for one and in order: no scroll, tap or
    [setPage] adds or drops one. *)
Theorem selected_and_phase_calls_mirror_events
        (es : list Event) (s : State) :
  onPageSelected props = true ->
  onPageScrollStateChanged props = true ->
  PageSelected_calls (snd (run props es s)) = page_selected_events es
  /\ PageScrollStateChanged_calls (snd (run props es s))
     = scroll_state_events es.
Proof.
  intros H1 H2. revert s. induction es as [|e es IH]; intros s.
  - split; reflexivity.
  - rewrite run_cons. simpl.
    unfold PageSelected_calls, PageScrollStateChanged_calls.
    rewrite !flat_map_app.
    destruct (IH (fst (step props e s))) as [IH1 IH2].
    unfold PageSelected_calls, PageScrollStateChanged_calls in IH1, IH2.
    rewrite IH1, IH2.
    destruct e as [position offset|p|position|index|index]; simpl.
    + destruct (onPageScroll_calls position offset s) as [E1 E2].
      unfold PageSelected_calls, PageScrollStateChanged_calls in E1, E2.
      rewrite E1, E2. split; reflexivity.
    + rewrite H2. split; reflexivity.
    + rewrite H1. split; reflexivity.
    + unfold pagerView_setPage.
      destruct (pagerView s), (onPageSelecting props); split; reflexivity.
    + unfold pagerView_setPage. destruct (pagerView s); split; reflexivity.
Qed.

Lemma step_outside_settle (e : Event) (s : State) :
  onPageSelecting props = true ->
  scrollState s <> "settling" ->
  outside_settle e = true ->
  scrollState (fst (step props e s)) <> "settling"
  /\ selectedPage (fst (step props e s)) = selectedPage s
  /\ PageSelecting_calls (snd (step props e s)) = tab_bar_selects [e].
Proof.
  intros Hp Hs He.
  destruct e as [position offset|p|position|index|index];
    simpl in *; try discriminate.
  - destruct (PrimFloat.eqb offset 0) eqn:Hz.
    + rewrite (onPageScroll_zero props position offset s Hz). auto.
    + unfold onPageScroll. rewrite Hz, (not_settling_eqb s Hs).
      destruct (PrimFloat.ltb offset (lastOffset s)); [simpl; auto|].
      destruct (PrimFloat.ltb (lastOffset s) offset); simpl; auto.
  - apply negb_true_iff, String.eqb_neq in He.
    destruct (onPageScrollStateChanged props); auto.
  - unfold pagerView_setPage. rewrite Hp.
    destruct (pagerView s); auto.
  - unfold pagerView_setPage. destruct (pagerView s); auto.
Qed.

(** X6.  As long as the paging view neither enters the settling phase nor
    reports a settled page, [selectedPage] does not change, whatever the
    offsets do, and the only [onPageSelecting] calls are those of the taps
    on the tab bar, one for each. *)
Theorem no_commit_outside_settle (es : list Event) (s : State) :
  onPageSelecting props = true ->
  scrollState s <> "settling" ->
  Forall (fun e => outside_settle e = true) es ->
  selectedPage (fst (run props es s)) = selectedPage s
  /\ PageSelecting_calls (snd (run props es s)) = tab_bar_selects es.
Proof.
  intros Hp Hs Hes. revert s Hs.
  induction Hes as [|e es He Hes IH]; intros s Hs; [split; reflexivity|].
  rewrite run_cons. simpl.
  destruct (step_outside_settle e s Hp Hs He) as (Hs' & Hsel & Hout).
  destruct (IH _ Hs') as [IH1 IH2].
  rewrite IH1, Hsel. split; [reflexivity|].
  unfold PageSelecting_calls, tab_bar_selects in *.
  rewrite flat_map_app, IH2, Hout. simpl. rewrite app_nil_r. reflexivity.
Qed.

(** X7.  A whole forward gesture: outside the settling phase a nonzero
    offset above [lastOffset], then the settling notice, then a nonzero
    offset above the first.  The run forwards the notice, calls
    [onPageSelecting(position + 1)] once, for the position of the second
    offset, and commits that page. *)
Theorem drag_forward_then_release
        (p1 p2 : Z) (o1 o2 : float) (s : State) :
  onPageSelecting props = true ->
  onPageScrollStateChanged props = true ->
  scrollState s <> "settling" ->
  PrimFloat.eqb o1 0 = false ->
  PrimFloat.eqb o2 0 = false ->
  PrimFloat.ltb o1 (lastOffset s) = false ->
  PrimFloat.ltb (lastOffset s) o1 = true ->
  PrimFloat.ltb o1 o2 = true ->
  run props
    [EvPageScroll p1 o1; EvPageScrollStateChanged "settling";
     EvPageScroll p2 o2] s
  = (mkState (p2 + 1) o2 0 "settling" (pagerView s),
     [PageScrollStateChanged "settling"; PageSelecting (p2 + 1)]).
Proof.
  intros Hp Hc Hs Hz1 Hz2 Hnlt Hlt1 Hlt2.
  simpl. unfold onPageScroll at 1.
  rewrite Hz1, (not_settling_eqb s Hs), Hnlt, Hlt1. simpl.
  rewrite Hc. simpl. unfold onPageScroll. simpl.
  rewrite Hz2, Hlt2, Hp. reflexivity.
Qed.

(** X8.  Taps on the tab bar and [setPage] calls write nothing: after any
    number of them [selectedPage] and the three refs are what they were.
    As long as the paging view is not mounted they command nothing
    either: [setPage] is silent and a tap only calls [onPageSelecting]. *)
Theorem commands_write_no_state (es : list Event) (s : State) :
  Forall (fun e => is_command e = true) es ->
  fst (run props es s) = s
  /\ (pagerView s = false ->
      snd (run props es s)
      = flat_map
          (fun i => optional_call (onPageSelecting props) (PageSelecting i))
          (tab_bar_selects es)).
Proof.
  induction 1 as [|e es He Hes [IH1 IH2]]; [split; reflexivity|].
  rewrite run_cons.
  destruct e as [| | |index|index]; try discriminate; simpl.
  - rewrite IH1. split; [reflexivity|]. intros Hm. rewrite (IH2 Hm).
    unfold pagerView_setPage. rewrite Hm. reflexivity.
  - rewrite IH1. split; [reflexivity|]. intros Hm. rewrite (IH2 Hm).
    unfold pagerView_setPage. rewrite Hm. reflexivity.
Qed.

(** X9.  A tap on the tab bar does not take part in the bookkeeping of a
    settle phase: with [lastDirection = 1] pending, a tap followed by a
    larger offset gives two [onPageSelecting] calls in the one phase, the
    tapped index and then [position + 1], and it is the latter that is
    committed. *)
Theorem tap_during_settle_announces_twice
        (index position : Z) (offset : float) (s : State) :
  onPageSelecting props = true ->
  pagerView s = true ->
  PrimFloat.eqb offset 0 = false ->
  scrollState s = "settling" ->
  lastDirection s = 1 ->
  PrimFloat.ltb (lastOffset s) offset = true ->
  snd (run props [EvTabBarSelect index; EvPageScroll position offset] s)
  = [PagerViewSetPage index; PageSelecting index;
     PageSelecting (position + 1)]
  /\ selectedPage
       (fst (run props [EvTabBarSelect index; EvPageScroll position offset] s))
     = position + 1.
Proof.
  intros Hp Hm Hz Hs Hd Hlt. simpl. unfold pagerView_setPage, onPageScroll.
  rewrite Hm, Hp, Hz, (settling_eqb s Hs), Hd, Hlt. simpl.
  split; reflexivity.
Qed.

End NativeRuns.

(* ===================================================================== *)
(** * More about the web pager: leaving a page and coming back *)
(* ===================================================================== *)

Section WebReturns.
Import Web.
Variable props : Props.

(** What a sticking tap does, in one equation. *)
Lemma onTabBarSelect_sticking (index : Z) (w : Window) (s : State) :
  isSticking w = true ->
  onTabBarSelect props index w s
  = (mkState index (<[selectedPage s := Some (scrollY w)]> (scrollYs s)),
     flushed props index
       ++ match <[selectedPage s := Some (scrollY w)]> (scrollYs s) !! index
          with
          | Some (Some restoredScrollY) => [WindowScrollTo 0 restoredScrollY]
          | _ => [WindowScrollTo 0 (PrimFloat.add (scrollY w) (anchorTop w))]
          end).
Proof. intros H. unfold onTabBarSelect. rewrite H. reflexivity. Qed.

Lemma onTabBarSelect_not_sticking (index : Z) (w : Window) (s : State) :
  isSticking w = false ->
  onTabBarSelect props index w s
  = (mkState index (<[selectedPage s := None]> (scrollYs s)),
     flushed props index).
Proof.
  intros H. unfold onTabBarSelect. rewrite H, app_nil_r. reflexivity.
Qed.

(** X10.  Leaving a page for another tab while the tab bar sticks, and
    coming back to it while it sticks, scrolls the window to where it was
    on leaving. *)
Theorem leave_and_return_restores_scroll
        (other : Z) (leaving returning : Window) (s : State) :
  other <> selectedPage s ->
  isSticking leaving = true ->
  isSticking returning = true ->
  snd (onTabBarSelect props (selectedPage s) returning
         (fst (onTabBarSelect props other leaving s)))
  = flushed props (selectedPage s) ++ [WindowScrollTo 0 (scrollY leaving)].
Proof.
  intros Hne Hl Hr.
  rewrite (onTabBarSelect_sticking _ returning _ Hr).
  rewrite (onTabBarSelect_sticking other leaving s Hl).
  cbn [fst snd selectedPage scrollYs].
  rewrite lookup_insert_ne by congruence.
  rewrite lookup_insert_eq. reflexivity.
Qed.

(** X11.  Leaving a page while the tab bar does not stick wipes what was
    recorded for it: coming back while it sticks scrolls to
    [scrollY + anchorTop], whatever position an earlier visit had left. *)
Theorem leave_unstuck_forgets_scroll
        (other : Z) (leaving returning : Window) (s : State) :
  other <> selectedPage s ->
  isSticking leaving = false ->
  isSticking returning = true ->
  snd (onTabBarSelect props (selectedPage s) returning
         (fst (onTabBarSelect props other leaving s)))
  = flushed props (selectedPage s)
      ++ [WindowScrollTo 0
            (PrimFloat.add (scrollY returning) (anchorTop returning))].
Proof.
  intros Hne Hl Hr.
  rewrite (onTabBarSelect_sticking _ returning _ Hr).
  rewrite (onTabBarSelect_not_sticking other leaving s Hl).
  cbn [fst snd selectedPage scrollYs].
  rewrite lookup_insert_ne by congruence.
  rewrite lookup_insert_eq. reflexivity.
Qed.

(** X12.  A tap on the tab that is already selected, while the tab bar
    sticks, scrolls the window to the [scrollY] it has: the position is
    recorded and read back in the same call, so an older record for the
    page is never used. *)
Theorem reselect_scrolls_to_current
        (w : Window) (s : State) :
  isSticking w = true ->
  onTabBarSelect props (selectedPage s) w s
  = (mkState (selectedPage s)
       (<[selectedPage s := Some (scrollY w)]> (scrollYs s)),
     flushed props (selectedPage s) ++ [WindowScrollTo 0 (scrollY w)]).
Proof.
  intros H. rewrite (onTabBarSelect_sticking _ w s H).
  rewrite lookup_insert_eq. reflexivity.
Qed.

(** X13.  [setPage] records no scroll position for the page it leaves:
    after [setPage(k)] away from a page, a sticking tap back on that page
    restores what [scrollYs] held for it before, or scrolls to
    [scrollY + anchorTop] when it held none, and the position recorded by
    the tap goes to page [k]. *)
Theorem setPage_records_no_scroll
        (k : Z) (w : Window) (s : State) :
  k <> selectedPage s ->
  isSticking w = true ->
  let back := onTabBarSelect props (selectedPage s) w (fst (setPage k s)) in
  snd back
  = flushed props (selectedPage s)
      ++ [WindowScrollTo 0
            match scrollYs s !! selectedPage s with
            | Some (Some restoredScrollY) => restoredScrollY
            | _ => PrimFloat.add (scrollY w) (anchorTop w)
            end]
  /\ scrollYs (fst back) !! k = Some (Some (scrollY w))
  /\ scrollYs (fst back) !! selectedPage s = scrollYs s !! selectedPage s.
Proof.
  intros Hne Hst back. subst back.
  rewrite (onTabBarSelect_sticking _ w _ Hst).
  cbn [fst snd selectedPage scrollYs setPage setSelectedPage].
  rewrite lookup_insert_eq, lookup_insert_ne by congruence.
  split; [|split; reflexivity].
  destruct (scrollYs s !! selectedPage s) as [[y|]|]; reflexivity.
Qed.

End WebReturns.

(* ===================================================================== *)
(** * More about the StringIdGenerator: which strings, and when *)
(* ===================================================================== *)

Section Enumeration.
Import Mocker.
#[local] Open Scope nat_scope.

Lemma render_snoc (chars : string) (ids : list nat) (v : nat) :
  render chars (ids ++ [v]) = String.get v chars :: render chars ids.
Proof. unfold render. rewrite fold_left_app. reflexivity. Qed.

Lemma length_list_ascii_of_string (s : string) :
  length (list_ascii_of_string s) = String.length s.
Proof.
  induction s as [|c s IH]; simpl; [reflexivity|].
  rewrite IH. reflexivity.
Qed.

Lemma elem_get (s : string) (c : ascii) :
  c ∈ list_ascii_of_string s ->
  exists i, i < String.length s /\ String.get i s = Some c.
Proof.
  induction s as [|c' s IH]; simpl; [inversion 1|].
  intros [->|Hin]%elem_of_cons.
  - exists 0. split; [lia | reflexivity].
  - destruct (IH Hin) as (i & Hi & Hget). exists (S i).
    split; [lia | exact Hget].
Qed.

Lemma get_below (s : string) (i : nat) :
  i < String.length s <-> exists c, String.get i s = Some c.
Proof.
  revert i. induction s as [|c' s IH]; intros [|i]; simpl.
  - split; [lia | intros [c H]; discriminate].
  - split; [lia | intros [c H]; discriminate].
  - split; [exists c'; reflexivity | lia].
  - rewrite <- IH. lia.
Qed.

(** Rendering in-range digits gives one alphabet character per digit. *)
Lemma join_render_chars (chars : string) (ids : list nat) :
  digits_ok (String.length chars) ids ->
  String.length (join (render chars ids)) = length ids
  /\ Forall (fun c => c ∈ list_ascii_of_string chars)
       (list_ascii_of_string (join (render chars ids))).
Proof.
  induction 1 as [|v rest Hv _ [IH1 IH2]]; [split; [reflexivity|constructor]|].
  rewrite render_cons, join_app.
  destruct (proj1 (get_below chars v) Hv) as [c Hc]. rewrite Hc. simpl.
  rewrite <- length_list_ascii_of_string, list_ascii_of_string_app in *.
  rewrite length_app, IH1. simpl. split; [lia|].
  apply Forall_app. split; [exact IH2|].
  repeat constructor. eapply get_elem, Hc.
Qed.

(** Two in-range digit sequences of the same value are the same. *)
Lemma value_inj (len : nat) (a b : list nat) :
  digits_ok len a -> digits_ok len b ->
  value len a = value len b -> a = b.
Proof.
  intros Ha. revert b. induction Ha as [|v a Hv _ IH]; intros b Hb.
  - destruct Hb; simpl; [reflexivity | lia].
  - destruct Hb as [|w b Hw Hb]; simpl; [lia|]. intros E.
    assert (value len a = value len b) as Hab by nia.
    rewrite (IH b Hb Hab). f_equal. nia.
Qed.

Lemma ids_up_to_lt (len L : nat) :
  0 < len -> ids_up_to len L < ids_up_to len (S L).
Proof. intros H. simpl. nia. Qed.

Lemma ids_up_to_mono (len L M : nat) :
  0 < len -> L <= M -> ids_up_to len L <= ids_up_to len M.
Proof.
  intros H. induction 1 as [|M _ IH]; [lia|].
  pose proof (ids_up_to_lt len M H). lia.
Qed.

Lemma value_upper (len : nat) (ids : list nat) :
  digits_ok len ids -> value len ids <= ids_up_to len (length ids).
Proof. induction 1 as [|v rest Hv _ IH]; simpl; [lia | nia]. Qed.

Lemma value_lower (len : nat) (ids : list nat) :
  digits_ok len ids -> ids_up_to len (length ids) <= len * value len ids.
Proof. induction 1 as [|v rest Hv _ IH]; simpl; [lia | nia]. Qed.

(** The digits are as many as [L] or fewer exactly when they are worth no
    more than the number of strings of up to [L] characters. *)
Lemma length_le_value (len L : nat) (ids : list nat) :
  0 < len -> digits_ok len ids ->
  length ids <= L <-> value len ids <= ids_up_to len L.
Proof.
  intros Hlen Hok. split.
  - intros H. pose proof (value_upper len ids Hok).
    pose proof (ids_up_to_mono len _ _ Hlen H). lia.
  - intros H. destruct Hok as [|v rest Hv Hrest]; simpl in *; [lia|].
    destruct (Nat.le_gt_cases (S (length rest)) L) as [|Hgt]; [assumption|].
    pose proof (value_lower len rest Hrest).
    pose proof (ids_up_to_mono len L (length rest) Hlen ltac:(lia)). lia.
Qed.

Variable chars : string.
Hypothesis chars_inhabited : 0 < String.length chars.

(** X14.  Every string [next] returns is non-empty and made of characters
    of the alphabet only. *)
Theorem ids_are_words_over_the_alphabet (n : nat) :
  call n (new_with chars) <> EmptyString
  /\ Forall (fun c => c ∈ list_ascii_of_string chars)
       (list_ascii_of_string (call n (new_with chars))).
Proof.
  destruct (before_call_digits chars chars_inhabited n) as (Hok & _ & Hhd).
  unfold call, next. simpl. rewrite before_call_chars. simpl.
  destruct (join_render_chars chars _ Hok) as [Hlen Hall].
  split; [|exact Hall].
  intros E. rewrite E in Hlen. simpl in Hlen.
  destruct (_nextId (before_call n (new_with chars))); discriminate.
Qed.

(** X15.  The call with index [n] returns a string of at most [L]
    characters exactly when [n] is below [len + len^2 + ... + len^L], the
    number of such strings: the generator goes through all strings of one
    length before any longer one. *)
Theorem id_length_by_call_index (n L : nat) :
  String.length (call n (new_with chars)) <= L
  <-> n < ids_up_to (String.length chars) L.
Proof.
  destruct (before_call_digits chars chars_inhabited n) as (Hok & Hval & _).
  unfold call, next. simpl. rewrite before_call_chars. simpl.
  rewrite (proj1 (join_render_chars chars _ Hok)).
  rewrite (length_le_value _ L _ chars_inhabited Hok), Hval. lia.
Qed.

(** The digits found by a call are the only in-range digits of its value. *)
Lemma digits_of_value (ids : list nat) :
  digits_ok (String.length chars) ids -> ids <> [] ->
  _nextId (before_call (value (String.length chars) ids - 1)
             (new_with chars)) = ids.
Proof.
  intros Hok Hne.
  destruct (before_call_digits chars chars_inhabited
              (value (String.length chars) ids - 1)) as (Hok' & Hval & _).
  apply (value_inj _ _ _ Hok' Hok). rewrite Hval.
  destruct ids as [|v rest]; [contradiction | simpl; lia].
Qed.

End Enumeration.

Section EveryWord.
Import Mocker.
#[local] Open Scope nat_scope.

(** A word over the alphabet is the rendering of in-range digits. *)
Lemma word_is_rendering (chars id : string) :
  Forall (fun c => c ∈ list_ascii_of_string chars)
    (list_ascii_of_string id) ->
  exists ids, digits_ok (String.length chars) ids
              /\ length ids = String.length id
              /\ join (render chars ids) = id.
Proof.
  induction id as [|c id IH]; simpl; intros H.
  - exists []. split; [constructor | split; reflexivity].
  - apply Forall_cons in H as [Hc Hid].
    destruct (IH Hid) as (ids & Hok & Hlen & Hj).
    destruct (elem_get chars c Hc) as (i & Hi & Hget).
    exists (ids ++ [i]). split; [|split].
    + apply Forall_app. split; [exact Hok | repeat constructor; exact Hi].
    + rewrite length_app, Hlen. simpl. lia.
    + rewrite render_snoc, Hget. simpl. rewrite Hj. reflexivity.
Qed.

(** X16.  Every non-empty string made of characters of the alphabet is
    returned by some call of a fresh generator. *)
Theorem every_word_is_generated (chars id : string) :
  id <> EmptyString ->
  Forall (fun c => c ∈ list_ascii_of_string chars)
    (list_ascii_of_string id) ->
  exists n, call n (new_with chars) = id.
Proof.
  intros Hne Hall.
  destruct (word_is_rendering chars id Hall) as (ids & Hok & Hlen & Hj).
  assert (Hids : ids <> []).
  { intros ->. destruct id; [contradiction | discriminate]. }
  assert (Hchars : 0 < String.length chars).
  { destruct ids as [|v rest]; [contradiction|].
    apply Forall_cons in Hok as [Hv _]. lia. }
  exists (value (String.length chars) ids - 1).
  unfold call, next. simpl. rewrite before_call_chars. simpl.
  rewrite (digits_of_value chars Hchars ids Hok Hids). exact Hj.
Qed.

(** The first calls return the characters of the alphabet, one each. *)
Lemma call_single_character (chars : string) (n : nat) (c : ascii) :
  String.get n chars = Some c ->
  call n (new_with chars) = String c EmptyString.
Proof.
  intros Hget.
  assert (Hn : n < String.length chars)
    by (apply get_below; exists c; exact Hget).
  assert (Hok : digits_ok (String.length chars) [n])
    by (repeat constructor; exact Hn).
  pose proof (digits_of_value chars ltac:(lia) [n] Hok ltac:(discriminate))
    as Hd.
  replace (value (String.length chars) [n] - 1) with n in Hd
    by (simpl; lia).
  unfold call, next. simpl. rewrite before_call_chars, Hd. simpl.
  unfold render. simpl. rewrite Hget. reflexivity.
Qed.

(** X17.  For a non-empty alphabet, the generator never returns a string
    twice exactly when the alphabet has no character twice. *)
Theorem never_repeats_iff_alphabet_NoDup (chars : string) :
  0 < String.length chars ->
  NoDup (list_ascii_of_string chars)
  <-> forall n m, call n (new_with chars) = call m (new_with chars) -> n = m.
Proof.
  intros Hlen. split.
  - intros Hnd n m. apply (call_inj chars Hlen Hnd).
  - intros Hinj. apply NoDup_alt. intros i j c Hi Hj.
    assert (G : forall k, list_ascii_of_string chars !! k = Some c ->
                          String.get k chars = Some c).
    { clear. induction chars as [|c' s IH]; intros [|k]; simpl;
        try discriminate; auto. }
    apply Hinj.
    rewrite (call_single_character chars i c (G i Hi)).
    rewrite (call_single_character chars j c (G j Hj)). reflexivity.
Qed.

Lemma carry_zero_base (k : nat) :
  carry 0 (replicate k 0) = replicate (S k) 0.
Proof.
  induction k as [|k IH]; simpl; [reflexivity|].
  rewrite IH. reflexivity.
Qed.

Lemma join_render_empty_alphabet (ids : list nat) :
  join (render EmptyString ids) = EmptyString.
Proof.
  induction ids as [|v rest IH]; [reflexivity|].
  rewrite render_cons, join_app, IH. destruct v; reflexivity.
Qed.

(** X18.  Constructed with the empty string as its alphabet, the
    generator returns the empty string at every call, while [_nextId]
    grows by one digit per call. *)
Theorem empty_alphabet_returns_empty_strings (n : nat) :
  call n (new_with EmptyString) = EmptyString
  /\ _nextId (before_call n (new_with EmptyString)) = replicate (S n) 0.
Proof.
  assert (G : before_call n (new_with EmptyString)
              = mkGen (replicate (S n) 0) EmptyString).
  { induction n as [|n IH]; [reflexivity|].
    rewrite before_call_S_r, IH, _increment_carry.
    cbn [_chars _nextId String.length].
    rewrite (carry_zero_base (S n)). reflexivity. }
  unfold call, next. rewrite G. cbn [fst _chars _nextId].
  split; [apply join_render_empty_alphabet | reflexivity].
Qed.

End EveryWord.

(* ===================================================================== *)
(** * Facts about the test server's ports and schema names *)
(* ===================================================================== *)

Section Ports.
Import TestServer.
Variable available : Z -> bool.

Lemma getPort_loop_found (todo : nat) (i p : Z) :
  getPort_loop todo available i = inr p -> first_available available i p.
Proof.
  revert i. induction todo as [|todo IH]; intros i; simpl; [discriminate|].
  destruct (Z.ltb_spec i 65000) as [Hi|]; [|discriminate].
  destruct (available i) eqn:Ha.
  - intros [= <-]. repeat split; try lia. exact Ha.
  - intros H. destruct (IH _ H) as (Hr & Hp & Hq).
    repeat split; try lia; [exact Hp|].
    intros q Hq'. destruct (Z.eq_dec q i) as [->|]; [exact Ha|].
    apply Hq. lia.
Qed.

Lemma getPort_loop_none (todo : nat) (i : Z) (e : Error) :
  65000 <= i + Z.of_nat todo ->
  getPort_loop todo available i = inl e ->
  forall q, i <= q < 65000 -> available q = false.
Proof.
  revert i. induction todo as [|todo IH]; intros i Hfuel; simpl.
  - intros _ q Hq. lia.
  - destruct (Z.ltb_spec i 65000) as [Hi|Hi]; [|intros _ q Hq; lia].
    destruct (available i) eqn:Ha; [discriminate|].
    intros H q Hq. destruct (Z.eq_dec q i) as [->|]; [exact Ha|].
    apply (IH (i + 1)); [lia | exact H | lia].
Qed.

Lemma getPort_fuel (start : Z) :
  65000 <= start + Z.of_nat (Z.to_nat (65000 - start)).
Proof. lia. Qed.

(** X19.  [getPort(start)] returns a port exactly when it is the first
    available port from [start] on, below 65000: it never skips an
    available port and never returns one outside [start .. 64999]. *)
Theorem getPort_returns_first_available (start p : Z) :
  getPort available start = inr p <-> first_available available start p.
Proof.
  split; [apply getPort_loop_found|].
  intros (Hr & Hp & Hq). unfold getPort.
  destruct (getPort_loop (Z.to_nat (65000 - start)) available start)
    as [e|p'] eqn:E.
  - pose proof (getPort_loop_none _ _ e (getPort_fuel start) E p Hr).
    congruence.
  - destruct (getPort_loop_found _ _ _ E) as (Hr' & Hp' & Hq').
    f_equal. destruct (Z.lt_trichotomy p p') as [H|[H|H]]; [|exact (eq_sym H)|].
    + specialize (Hq' p ltac:(lia)). congruence.
    + specialize (Hq p' ltac:(lia)). congruence.
Qed.

(** X20.  [getPort(start)] throws exactly when no port from [start] to
    64999 is available; so it always throws for a [start] of 65000 or
    more, without asking about any port. *)
Theorem getPort_throws_iff_none_available (start : Z) :
  getPort available start = inl Unable_to_find_an_available_port
  <-> forall q, start <= q < 65000 -> available q = false.
Proof.
  split.
  - apply getPort_loop_none, getPort_fuel.
  - intros Hnone. destruct (getPort available start) as [[]|p] eqn:E;
      [reflexivity|].
    destruct (getPort_loop_found _ _ _ E) as (Hr & Hp & _).
    rewrite (Hnone p Hr) in Hp. discriminate.
Qed.

End Ports.

Section Servers.
Import TestServer.

(** X21.  When [createServer] gets as far as the network it has three
    different ports: 3000 for the PDS, taken without asking whether it is
    free, then the first port from 3001 on that answered free for the PLC,
    then the first one above that for the AppView. *)
Theorem createServer_ports
        (available2 available3 : Z -> bool)
        (ids ids' : Mocker.StringIdGenerator) (c : NetworkConfig) :
  createServer available2 available3 ids = (inr c, ids') ->
  pds_port c = 3000
  /\ first_available available2 3001 (plc_port c)
  /\ first_available available3 (plc_port c + 1) (bsky_port c)
  /\ 3000 < plc_port c < bsky_port c.
Proof.
  unfold createServer, Mocker.next. change (3000 + 1) with 3001.
  destruct (getPort available2 3001) as [e|port2] eqn:E2; [discriminate|].
  destruct (getPort available3 (port2 + 1)) as [e|port3] eqn:E3;
    [discriminate|].
  intros [= <- _]. simpl.
  apply getPort_loop_found in E2, E3.
  pose proof E2 as (H2 & _). pose proof E3 as (H3 & _).
  repeat split; try assumption; try lia; apply E2 || apply E3.
Qed.

Lemma append_inj_r (a b c : string) :
  (a ++ b)%string = (a ++ c)%string -> b = c.
Proof. induction a as [|x a IH]; simpl; [auto|]. intros [= H]. auto. Qed.

(** X22.  A [createServer] that throws takes no id from the generator; one
    that succeeds takes exactly one, and names the two schemas [pds_] and
    [bsky_] followed by it.  So two servers made from the module's one
    generator have different schema names. *)
Theorem createServer_schema_names :
  (forall a2 a3 ids e g,
      createServer a2 a3 ids = (inl e, g) -> g = ids)
  /\ (forall a2 a3 b2 b3 n m c1 c2 g1 g2,
        n <> m ->
        createServer a2 a3 (Mocker.before_call n Mocker.new) = (inr c1, g1) ->
        createServer b2 b3 (Mocker.before_call m Mocker.new) = (inr c2, g2) ->
        g1 = Mocker.before_call (S n) Mocker.new
        /\ pds_dbPostgresSchema c1
           = ("pds_" ++ Mocker.call n Mocker.new)%string
        /\ bsky_dbPostgresSchema c1
           = ("bsky_" ++ Mocker.call n Mocker.new)%string
        /\ pds_dbPostgresSchema c1 <> pds_dbPostgresSchema c2
        /\ bsky_dbPostgresSchema c1 <> bsky_dbPostgresSchema c2).
Proof.
  split.
  - intros a2 a3 ids e g.
    unfold createServer, Mocker.next. change (3000 + 1) with 3001.
    destruct (getPort a2 3001) as [e2|p2]; [congruence|].
    destruct (getPort a3 (p2 + 1)) as [e3|p3]; [congruence | discriminate].
  - intros a2 a3 b2 b3 n m c1 c2 g1 g2 Hnm.
    unfold createServer, Mocker.next. change (3000 + 1) with 3001.
    destruct (getPort a2 3001) as [e|p2]; [discriminate|].
    destruct (getPort a3 (p2 + 1)) as [e|p3]; [discriminate|].
    intros [= <- <-].
    destruct (getPort b2 3001) as [e|q2]; [discriminate|].
    destruct (getPort b3 (q2 + 1)) as [e|q3]; [discriminate|].
    intros [= <- _].
    cbn [pds_dbPostgresSchema bsky_dbPostgresSchema].
    split; [symmetry; apply before_call_S_r|].
    split; [reflexivity|]. split; [reflexivity|].
    split; intros H; apply append_inj_r in H; apply Hnm;
      exact (call_inj Mocker.default_chars default_chars_inhabited
               default_chars_NoDup n m H).
Qed.

End Servers.

(* ===================================================================== *)
(** * The facts above at the sample inputs *)
(* ===================================================================== *)

Lemma settling_backward_commits_this_page_witness :
  Native.onPageScroll native_props 0 0.5%float released_backward
  = (Native.mkState 0 0.5%float 0 "settling" true,
     [Native.PageSelecting 0]).
Proof.
  exact (settling_backward_commits_this_page native_props 0 0.5%float
           released_backward eq_refl eq_refl eq_refl eq_refl eq_refl).
Defined.

Lemma settling_unconfirmed_waits_witness :
  Native.onPageScroll native_props 0 0.125%float released_forward
  = (Native.set_lastOffset 0.125%float released_forward, []).
Proof.
  apply (settling_unconfirmed_waits native_props 0 0.125%float
           released_forward eq_refl eq_refl).
  - intros H. discriminate H.
  - intros _. reflexivity.
Defined.

Lemma tracking_outside_settle_witness :
  snd (Native.onPageScroll native_props 0 0.5%float dragging) = []
  /\ Native.lastDirection
       (fst (Native.onPageScroll native_props 0 0.5%float dragging)) = 1.
Proof.
  assert (H : Native.scrollState dragging <> "settling") by discriminate.
  pose proof (tracking_outside_settle native_props 0 0.5%float dragging
                eq_refl H) as (H1 & _ & _ & _ & H5).
  split; [exact H1 | exact H5].
Defined.

Lemma lastDirection_stays_a_direction_witness :
  Native.is_direction
    (Native.lastDirection
       (fst (Native.run native_props
               [Native.EvPageScroll 0 0.5%float;
                Native.EvPageScrollStateChanged "settling";
                Native.EvPageScroll 0 0.75%float]
               (Native.init native_props true)))) = true.
Proof.
  exact (lastDirection_stays_a_direction native_props _
           (Native.init native_props true) eq_refl).
Defined.

Lemma selected_and_phase_calls_mirror_events_witness :
  Native.PageSelected_calls
    (snd (Native.run native_props
            [Native.EvPageScrollStateChanged "dragging";
             Native.EvPageScroll 0 0.5%float; Native.EvTabBarSelect 2;
             Native.EvPageSelected 2]
            (Native.init native_props true)))
  = [2].
Proof.
  exact (proj1 (selected_and_phase_calls_mirror_events native_props
                  [Native.EvPageScrollStateChanged "dragging";
                   Native.EvPageScroll 0 0.5%float; Native.EvTabBarSelect 2;
                   Native.EvPageSelected 2]
                  (Native.init native_props true) eq_refl eq_refl)).
Defined.

Lemma no_commit_outside_settle_witness :
  Native.selectedPage
    (fst (Native.run native_props
            [Native.EvPageScroll 0 0.5%float; Native.EvTabBarSelect 1;
             Native.EvPageScrollStateChanged "idle"]
            dragging))
  = 0
  /\ Native.PageSelecting_calls
       (snd (Native.run native_props
               [Native.EvPageScroll 0 0.5%float; Native.EvTabBarSelect 1;
                Native.EvPageScrollStateChanged "idle"]
               dragging))
     = [1].
Proof.
  assert (H : Native.scrollState dragging <> "settling") by discriminate.
  apply (no_commit_outside_settle native_props
           [Native.EvPageScroll 0 0.5%float; Native.EvTabBarSelect 1;
            Native.EvPageScrollStateChanged "idle"]
           dragging eq_refl H).
  repeat constructor.
Defined.

Lemma drag_forward_then_release_witness :
  Native.run native_props
    [Native.EvPageScroll 0 0.25%float;
     Native.EvPageScrollStateChanged "settling";
     Native.EvPageScroll 0 0.5%float] dragging
  = (Native.mkState 1 0.5%float 0 "settling" true,
     [Native.PageScrollStateChanged "settling"; Native.PageSelecting 1]).
Proof.
  assert (H : Native.scrollState dragging <> "settling") by discriminate.
  exact (drag_forward_then_release native_props 0 0 0.25%float 0.5%float
           dragging eq_refl eq_refl H eq_refl eq_refl eq_refl eq_refl
           eq_refl).
Defined.

Lemma commands_write_no_state_witness :
  fst (Native.run native_props [Native.EvTabBarSelect 1; Native.EvSetPage 2]
         (Native.init native_props false))
  = Native.init native_props false.
Proof.
  refine (proj1 (commands_write_no_state native_props
                   [Native.EvTabBarSelect 1; Native.EvSetPage 2]
                   (Native.init native_props false) _)).
  repeat constructor.
Defined.

Lemma tap_during_settle_announces_twice_witness :
  snd (Native.run native_props
         [Native.EvTabBarSelect 2; Native.EvPageScroll 0 0.5%float]
         released_forward)
  = [Native.PagerViewSetPage 2; Native.PageSelecting 2;
     Native.PageSelecting 1].
Proof.
  exact (proj1 (tap_during_settle_announces_twice native_props 2 0
                  0.5%float released_forward eq_refl eq_refl eq_refl
                  eq_refl eq_refl eq_refl)).
Defined.

Lemma leave_and_return_restores_scroll_witness :
  snd (Web.onTabBarSelect web_props 2 scrolled_past_anchor
         (fst (Web.onTabBarSelect web_props 1 scrolled_past_anchor
                 (Web.init web_props))))
  = Web.flushed web_props 2 ++ [Web.WindowScrollTo 0 300%float].
Proof.
  assert (H : 1 <> Web.selectedPage (Web.init web_props)) by discriminate.
  exact (leave_and_return_restores_scroll web_props 1 scrolled_past_anchor
           scrolled_past_anchor (Web.init web_props) H eq_refl eq_refl).
Defined.

Lemma leave_unstuck_forgets_scroll_witness :
  snd (Web.onTabBarSelect web_props 2 scrolled_past_anchor
         (fst (Web.onTabBarSelect web_props 1 anchor_below_top
                 (Web.init web_props))))
  = Web.flushed web_props 2
      ++ [Web.WindowScrollTo 0
            (PrimFloat.add (Web.scrollY scrolled_past_anchor)
               (Web.anchorTop scrolled_past_anchor))].
Proof.
  assert (H : 1 <> Web.selectedPage (Web.init web_props)) by discriminate.
  exact (leave_unstuck_forgets_scroll web_props 1 anchor_below_top
           scrolled_past_anchor (Web.init web_props) H eq_refl eq_refl).
Defined.

Lemma reselect_scrolls_to_current_witness :
  snd (Web.onTabBarSelect web_props 2 scrolled_past_anchor
         (Web.init web_props))
  = Web.flushed web_props 2 ++ [Web.WindowScrollTo 0 300%float].
Proof.
  exact (f_equal snd
           (reselect_scrolls_to_current web_props scrolled_past_anchor
              (Web.init web_props) eq_refl)).
Defined.

Lemma setPage_records_no_scroll_witness :
  Web.scrollYs
    (fst (Web.onTabBarSelect web_props 2 scrolled_past_anchor
            (fst (Web.setPage 1 (Web.init web_props))))) !! 1
  = Some (Some 300%float).
Proof.
  assert (H : 1 <> Web.selectedPage (Web.init web_props)) by discriminate.
  exact (proj1 (proj2 (setPage_records_no_scroll web_props 1
                         scrolled_past_anchor (Web.init web_props)
                         H eq_refl))).
Defined.

Lemma ids_are_words_over_the_alphabet_witness :
  Mocker.call 100 Mocker.new <> EmptyString.
Proof.
  exact (proj1 (ids_are_words_over_the_alphabet Mocker.default_chars
                  default_chars_inhabited 100)).
Defined.

Lemma id_length_by_call_index_witness :
  (String.length (Mocker.call 2755 Mocker.new) <= 2)%nat.
Proof.
  apply (proj2 (id_length_by_call_index Mocker.default_chars
                  default_chars_inhabited 2755 2)).
  vm_compute. lia.
Defined.

Lemma every_word_is_generated_witness :
  exists n, Mocker.call n Mocker.new = "Zz"%string.
Proof.
  apply (every_word_is_generated Mocker.default_chars "Zz"); [discriminate|].
  apply (bool_decide_unpack _). vm_compute. reflexivity.
Defined.

Lemma never_repeats_iff_alphabet_NoDup_witness :
  (0 < String.length Mocker.default_chars)%nat
  /\ (NoDup (list_ascii_of_string Mocker.default_chars)
      <-> forall n m,
          Mocker.call n Mocker.new = Mocker.call m Mocker.new -> n = m).
Proof.
  split; [exact default_chars_inhabited|].
  exact (never_repeats_iff_alphabet_NoDup Mocker.default_chars
           default_chars_inhabited).
Defined.

Lemma getPort_returns_first_available_witness :
  TestServer.getPort free_from_3005 3001 = inr 3005.
Proof.
  apply (proj2 (getPort_returns_first_available free_from_3005 3001 3005)).
  split; [lia|]. split; [reflexivity|].
  intros q Hq. apply Z.leb_gt. lia.
Defined.

Lemma getPort_throws_iff_none_available_witness :
  TestServer.getPort no_port_free 3001
  = inl TestServer.Unable_to_find_an_available_port.
Proof.
  apply (proj2 (getPort_throws_iff_none_available no_port_free 3001)).
  intros q _. reflexivity.
Defined.

Lemma createServer_ports_witness :
  TestServer.first_available every_port_free 3001 3001
  /\ TestServer.first_available free_from_3005 3002 3005.
Proof.
  assert (H : TestServer.createServer every_port_free free_from_3005
                Mocker.new
              = (inr (TestServer.mkConfig 3000 "pds_a" "bsky_a" 3005 3001),
                 Mocker.mkGen [1%nat] Mocker.default_chars))
    by (vm_compute; reflexivity).
  pose proof (createServer_ports _ _ _ _ _ H) as (_ & H2 & H3 & _).
  split; [exact H2 | exact H3].
Defined.

Lemma createServer_schema_names_witness :
  TestServer.pds_dbPostgresSchema
    (TestServer.mkConfig 3000 "pds_a" "bsky_a" 3002 3001)
  <> TestServer.pds_dbPostgresSchema
       (TestServer.mkConfig 3000 "pds_b" "bsky_b" 3002 3001).
Proof.
  assert (H0 : TestServer.createServer every_port_free every_port_free
                 (Mocker.before_call 0 Mocker.new)
               = (inr (TestServer.mkConfig 3000 "pds_a" "bsky_a" 3002 3001),
                  Mocker.mkGen [1%nat] Mocker.default_chars))
    by (vm_compute; reflexivity).
  assert (H1 : TestServer.createServer every_port_free every_port_free
                 (Mocker.before_call 1 Mocker.new)
               = (inr (TestServer.mkConfig 3000 "pds_b" "bsky_b" 3002 3001),
                  Mocker.mkGen [2%nat] Mocker.default_chars))
    by (vm_compute; reflexivity).
  assert (Hnm : (0 <> 1)%nat) by discriminate.
  exact (proj1 (proj2 (proj2 (proj2
           (proj2 createServer_schema_names _ _ _ _ 0%nat 1%nat _ _ _ _
              Hnm H0 H1))))).
Defined.
